(** * MarkovClasses: continuous-time Markov patient simulation and cohort outcomes

    Shallow embedding of [MarkovClasses.py]: the per-patient Gillespie loop
    ([Patient.simulate]), the outcome bookkeeping ([PatientStateMonitor.update]),
    the cohort loop ([Cohort.simulate]) and the aggregation
    ([CohortOutcomes.extract_outcome], [CohortOutcomes.calculate_cohort_outcomes]).

    Conventions.
    - Python numbers that hold times and means are exact rationals ([Q]);
      counters and ids are integers ([Z]).  Python computes times in binary64:
      what is stated on the termination of the loop and on the range of the
      recorded values is put on the values the variables hold and on the tests
      they have passed, not on sums being exact.
    - A mutable object is a record threaded through the calls that mutate it.
    - A raised exception is a value of [exn]; the state reached when it is
      raised is kept, as Python keeps the mutated objects. *)

From Stdlib Require Import String.
From Stdlib Require Import ZArith QArith List Bool Lia Lqa Permutation Sorted.
Import ListNotations.

Local Open Scope Z_scope.

(** ** Exceptions *)

(** The exceptions of the embedded code: [ValueError] from the enumeration
    lookup [HealthStates(i)], [ZeroDivisionError] from [sum(l) / len(l)].
    [InvalidArgumentError] is named by the design document only; no path of
    [MarkovClasses.py] raises it. *)
Inductive exn : Type :=
  | ValueError
  | ZeroDivisionError
  | InvalidArgumentError.

(** ** Collaborators that live outside [MarkovClasses.py] *)

(** Modelled from the spec: the enumeration [InputData.HealthStates] is
    imported by [MarkovClasses.py] and is not part of it.  The source names four
    members, reads [.value] and calls [HealthStates(i)]; these are the
    interface.  [HealthStates_call i = None] stands for the [ValueError] Python
    raises when no member has value [i]. *)
Class HealthStatesEnum : Type := {
  HealthStates : Type;
  HealthStates_eq_dec : forall a b : HealthStates, {a = b} + {a <> b};
  WELL : HealthStates;
  STROKE : HealthStates;
  STROKE_DEAD : HealthStates;
  NATURAL_DEATH : HealthStates;
  value : HealthStates -> Z;
  HealthStates_call : Z -> option HealthStates;
  call_value : forall s, HealthStates_call (value s) = Some s;
  named_distinct : NoDup [WELL; STROKE; STROKE_DEAD; NATURAL_DEATH]
}.

(** A transition-rate matrix, as the list of rows the source passes around. *)
Definition RateMatrix : Type := list (list Q).

(** Modelled from the spec: [np.random.RandomState] and
    [SimPy.Markov.Gillespie] are libraries.  [RandomState_seed s] is
    [np.random.RandomState(seed=s)]; [get_next_state m i rng] is
    [Markov.Gillespie(transition_rate_matrix=m).get_next_state(i, rng)]: the
    holding time ([None] in an absorbing state), the index of the next state
    and the generator after the draws. *)
Class GillespieSampler : Type := {
  RandomState : Type;
  RandomState_seed : Z -> RandomState;
  get_next_state : RateMatrix -> Z -> RandomState -> option Q * Z * RandomState
}.

(** ** Numbers *)

(** Python's [a > b] on times. *)
Definition Qgtb (a b : Q) : bool := negb (Qle_bool a b).

(** Python's [sum(l)] : a left fold that starts from [0]. *)
Definition sumQ (l : list Q) : Q := fold_left Qplus l 0%Q.
Definition sumZ (l : list Z) : Z := fold_left Z.add l 0.

(** Python's [len(l)] as an integer. *)
Definition len {A : Type} (l : list A) : Z := Z.of_nat (length l).

(** Python's true division [a / n] by an [int]: [None] is the
    [ZeroDivisionError]. *)
Definition true_div (a : Q) (n : Z) : option Q :=
  if n =? 0 then None else Some (a / inject_Z n)%Q.

(** Python's [range(n)]: empty when [n <= 0]. *)
Definition range (n : Z) : list Z := map Z.of_nat (seq 0 (Z.to_nat n)).

(** ** The survival curve *)

(** Modelled from the spec: [SimPy.SamplePath.PrevalencePathBatchUpdate] is a
    library class.  The object keeps what [calculate_cohort_outcomes] passes to
    it. *)
Record PrevalencePathBatchUpdate : Type := {
  name : string;
  initial_size : Z;
  times_of_changes : list Q;
  increments : list Z
}.

(** Insertion of a change into a list of changes ordered by time. *)
Fixpoint insert_change (c : Q * Z) (l : list (Q * Z)) : list (Q * Z) :=
  match l with
  | [] => [c]
  | d :: l' => if Qle_bool (fst c) (fst d) then c :: l else d :: insert_change c l'
  end.

Fixpoint sort_changes (l : list (Q * Z)) : list (Q * Z) :=
  match l with
  | [] => []
  | c :: l' => insert_change c (sort_changes l')
  end.

(** The running size after each change, starting from [size]. *)
Fixpoint accumulate (size : Z) (l : list (Q * Z)) : list (Q * Z) :=
  match l with
  | [] => []
  | (time, inc) :: l' => (time, size + inc) :: accumulate (size + inc) l'
  end.

(** Modelled from the spec: the breakpoints [(time, livingCount)] of the
    step function: [initial_size] at time 0, then the changes in ascending
    time order, each one applied to the running count. *)
Definition survival_curve (p : PrevalencePathBatchUpdate) : list (Q * Z) :=
  (0%Q, initial_size p)
    :: accumulate (initial_size p)
         (sort_changes (combine (times_of_changes p) (increments p))).

Section MarkovClasses.

Context {HS : HealthStatesEnum} {GS : GillespieSampler}.

(** ** PatientStateMonitor *)

Record PatientStateMonitor : Type := {
  currentState : HealthStates;
  survivalTime : option Q;
  nStrokes : Z
}.

(** [PatientStateMonitor.__init__] *)
Definition PatientStateMonitor_init : PatientStateMonitor :=
  {| currentState := WELL; survivalTime := None; nStrokes := 0 |}.

(** Python's [x in (a, b)] on enumeration members. *)
Definition in_tuple (x : HealthStates) (l : list HealthStates) : bool :=
  existsb (fun y => if HealthStates_eq_dec x y then true else false) l.

(** [PatientStateMonitor.update]: three independent statements. *)
Definition update (mon : PatientStateMonitor) (time : Q) (new_state : HealthStates)
  : PatientStateMonitor :=
  {| currentState := new_state;
     survivalTime :=
       if in_tuple new_state [STROKE_DEAD; NATURAL_DEATH]
       then Some time else survivalTime mon;
     nStrokes :=
       if in_tuple new_state [STROKE; STROKE_DEAD]
       then nStrokes mon + 1 else nStrokes mon |}.

(** ** Patient *)

Record Patient : Type := {
  Patient_id : Z;
  transRateMatrix : RateMatrix;
  stateMonitor : PatientStateMonitor
}.

(** [Patient.__init__] *)
Definition Patient_init (id : Z) (trans_rate_matrix : RateMatrix) : Patient :=
  {| Patient_id := id;
     transRateMatrix := trans_rate_matrix;
     stateMonitor := PatientStateMonitor_init |}.

(** One call of [stateMonitor.update] as the run performs it.  [sampled] is
    [true] when the call applies the transition that was just sampled and
    [false] when it is the call of the branch that stops at the horizon. *)
Record UpdateCall : Type := {
  call_time : Q;
  call_state : HealthStates;
  sampled : bool
}.

(** The variables of [Patient.simulate] while its loop runs: [t], [if_stop],
    [rng], the patient's monitor; [updates] is the history of the calls of
    [update] (the trajectory), and [raised] holds the exception that ended the
    run, if any. *)
Record SimState : Type := {
  t : Q;
  if_stop : bool;
  rng : RandomState;
  monitor : PatientStateMonitor;
  updates : list UpdateCall;
  raised : option exn
}.

(** The state at the loop's first test. *)
Definition sim_start (p : Patient) : SimState :=
  {| t := 0%Q;
     if_stop := false;
     rng := RandomState_seed (Patient_id p);
     monitor := stateMonitor p;
     updates := [];
     raised := None |}.

(** The loop is left when [if_stop] is set or an exception was raised. *)
Definition halted (st : SimState) : bool :=
  if_stop st || match raised st with Some _ => true | None => false end.

(** The body of [while not if_stop]. *)
Definition loop_body (m : RateMatrix) (sim_length : Q) (st : SimState) : SimState :=
  let '(dt, new_state_index, rng') :=
    get_next_state m (value (currentState (monitor st))) (rng st) in
  match dt with
  | None =>
      {| t := t st; if_stop := true; rng := rng'; monitor := monitor st;
         updates := updates st; raised := None |}
  | Some dt =>
      let '(t', new_state_index', if_stop', is_sampled) :=
        if Qgtb (dt + t st) sim_length
        then (sim_length, value (currentState (monitor st)), true, false)
        else ((t st + dt)%Q, new_state_index, if_stop st, true) in
      match HealthStates_call new_state_index' with
      | None =>
          {| t := t'; if_stop := if_stop'; rng := rng'; monitor := monitor st;
             updates := updates st; raised := Some ValueError |}
      | Some new_state =>
          {| t := t'; if_stop := if_stop'; rng := rng';
             monitor := update (monitor st) t' new_state;
             updates := updates st
                          ++ [{| call_time := t'; call_state := new_state;
                                 sampled := is_sampled |}];
             raised := None |}
      end
  end.

(** One turn of the loop: the test, then the body. *)
Definition step (m : RateMatrix) (sim_length : Q) (st : SimState) : SimState :=
  if halted st then st else loop_body m sim_length st.

(** The state after at most [n] turns. *)
Definition run (m : RateMatrix) (sim_length : Q) (n : nat) (st : SimState) : SimState :=
  Nat.iter n (step m sim_length) st.

(** [Patient.simulate] with a bound on the number of turns: [None] when the
    loop has not been left after [fuel] turns, otherwise the patient with its
    monitor as the run left it, and the exception if one was raised. *)
Definition simulate (fuel : nat) (p : Patient) (sim_length : Q)
  : option (Patient * option exn) :=
  let st := run (transRateMatrix p) sim_length fuel (sim_start p) in
  if halted st
  then Some ({| Patient_id := Patient_id p;
                transRateMatrix := transRateMatrix p;
                stateMonitor := monitor st |}, raised st)
  else None.

(** ** CohortOutcomes *)

Record CohortOutcomes : Type := {
  survivalTimes : list Q;
  nTotalStrokes : list Z;
  nLivingPatients : option PrevalencePathBatchUpdate;
  meanSurvivalTime : option Q;
  meanNumOfStrokes : option Q
}.

(** [CohortOutcomes.__init__] *)
Definition CohortOutcomes_init : CohortOutcomes :=
  {| survivalTimes := []; nTotalStrokes := []; nLivingPatients := None;
     meanSurvivalTime := None; meanNumOfStrokes := None |}.

(** [CohortOutcomes.extract_outcome] *)
Definition extract_outcome (co : CohortOutcomes) (simulated_patient : Patient)
  : CohortOutcomes :=
  let mon := stateMonitor simulated_patient in
  {| survivalTimes :=
       match survivalTime mon with
       | Some s => survivalTimes co ++ [s]
       | None => survivalTimes co
       end;
     nTotalStrokes := nTotalStrokes co ++ [nStrokes mon];
     nLivingPatients := nLivingPatients co;
     meanSurvivalTime := meanSurvivalTime co;
     meanNumOfStrokes := meanNumOfStrokes co |}.

(** [CohortOutcomes.calculate_cohort_outcomes]: three assignments in order;
    a division by zero leaves the object as the earlier assignments made
    it. *)
Definition calculate_cohort_outcomes (co : CohortOutcomes) (initial_pop_size : Z)
  : CohortOutcomes * option exn :=
  match true_div (sumQ (survivalTimes co)) (len (survivalTimes co)) with
  | None => (co, Some ZeroDivisionError)
  | Some mean_time =>
      let co1 :=
        {| survivalTimes := survivalTimes co;
           nTotalStrokes := nTotalStrokes co;
           nLivingPatients := nLivingPatients co;
           meanSurvivalTime := Some mean_time;
           meanNumOfStrokes := meanNumOfStrokes co |} in
      match true_div (inject_Z (sumZ (nTotalStrokes co1))) (len (nTotalStrokes co1)) with
      | None => (co1, Some ZeroDivisionError)
      | Some mean_strokes =>
          ({| survivalTimes := survivalTimes co1;
              nTotalStrokes := nTotalStrokes co1;
              nLivingPatients :=
                Some {| name := "# of living patients"%string;
                        initial_size := initial_pop_size;
                        times_of_changes := survivalTimes co1;
                        increments :=
                          repeat (-1) (length (survivalTimes co1)) |};
              meanSurvivalTime := meanSurvivalTime co1;
              meanNumOfStrokes := Some mean_strokes |}, None)
      end
  end.

(** ** Cohort *)

Record Cohort : Type := {
  Cohort_id : Z;
  popSize : Z;
  Cohort_transRateMatrix : RateMatrix;
  cohortOutcomes : CohortOutcomes
}.

(** [Cohort.__init__] *)
Definition Cohort_init (id pop_size : Z) (trans_rate_matrix : RateMatrix) : Cohort :=
  {| Cohort_id := id; popSize := pop_size;
     Cohort_transRateMatrix := trans_rate_matrix;
     cohortOutcomes := CohortOutcomes_init |}.

Definition set_cohortOutcomes (c : Cohort) (co : CohortOutcomes) : Cohort :=
  {| Cohort_id := Cohort_id c; popSize := popSize c;
     Cohort_transRateMatrix := Cohort_transRateMatrix c;
     cohortOutcomes := co |}.

(** The [for i in ...] loop of [Cohort.simulate] over the indices [idxs]:
    create the patient, simulate it, extract its outcome.  [None] when a
    patient's loop was not left within [fuel] turns; an exception raised by a
    patient's run ends the loop before that patient's outcome is extracted. *)
Fixpoint simulate_patients (fuel : nat) (c : Cohort) (sim_length : Q) (idxs : list Z)
  (co : CohortOutcomes) : option (CohortOutcomes * option exn) :=
  match idxs with
  | [] => Some (co, None)
  | i :: idxs' =>
      let patient :=
        Patient_init (Cohort_id c * popSize c + i) (Cohort_transRateMatrix c) in
      match simulate fuel patient sim_length with
      | None => None
      | Some (_, Some e) => Some (co, Some e)
      | Some (patient', None) =>
          simulate_patients fuel c sim_length idxs' (extract_outcome co patient')
      end
  end.

(** [Cohort.simulate] *)
Definition Cohort_simulate (fuel : nat) (c : Cohort) (sim_length : Q)
  : option (Cohort * option exn) :=
  match simulate_patients fuel c sim_length (range (popSize c)) (cohortOutcomes c) with
  | None => None
  | Some (co, Some e) => Some (set_cohortOutcomes c co, Some e)
  | Some (co, None) =>
      let '(co', r) := calculate_cohort_outcomes co (popSize c) in
      Some (set_cohortOutcomes c co', r)
  end.

End MarkovClasses.

(** ** Predicates used to state the properties *)

(** Change [a] is not later than change [b]. *)
Definition earlier (a b : Q * Z) : Prop := (fst a <= fst b)%Q.

(** Each count of [l] is the one before it minus 1, starting below [x]. *)
Fixpoint steps_down (x : Z) (l : list Z) : Prop :=
  match l with
  | [] => True
  | y :: l' => y = x - 1 /\ steps_down y l'
  end.

(** The ids [Cohort.simulate] gives to the patients it creates, in the order
    of its loop. *)
Definition patient_ids (c : Cohort) : list Z :=
  map (fun i => Cohort_id c * popSize c + i) (range (popSize c)).

Section Predicates.

Context {HS : HealthStatesEnum} {GS : GillespieSampler}.

(** The death-type states of [update]'s first test. *)
Definition is_death (s : HealthStates) : bool :=
  in_tuple s [STROKE_DEAD; NATURAL_DEATH].

(** The stroke-type states of [update]'s second test. *)
Definition is_stroke (s : HealthStates) : bool :=
  in_tuple s [STROKE; STROKE_DEAD].

(** Number of calls of [update] with a stroke-type state. *)
Definition count_stroke_calls (l : list UpdateCall) : Z :=
  len (filter (fun u => is_stroke (call_state u)) l).

(** Number of sampled transitions into a stroke-type state: the calls made
    for the horizon are left out. *)
Definition count_applied_strokes (l : list UpdateCall) : Z :=
  len (filter (fun u => sampled u && is_stroke (call_state u)) l).

(** No call of the history enters a death-type state. *)
Definition no_death_call (l : list UpdateCall) : Prop :=
  forall u, In u l -> is_death (call_state u) = false.

(** State [i] is absorbing for [m]: the sampler returns [None] as holding
    time, whatever the generator. *)
Definition absorbing (m : RateMatrix) (i : Z) : Prop :=
  forall r, fst (fst (get_next_state m i r)) = None.

(** Every holding time the sampler draws is at least [delta]. *)
Definition holding_times_at_least (delta : Q) : Prop :=
  forall m i r dt j r',
    get_next_state m i r = (Some dt, j, r') -> (delta <= dt)%Q.

(** Every holding time the sampler draws is positive. *)
Definition holding_times_positive : Prop :=
  forall m i r dt j r',
    get_next_state m i r = (Some dt, j, r') -> (0 < dt)%Q.

(** Every holding time the sampler draws for the matrix [m] is at least
    [delta]. *)
Definition holding_times_of (m : RateMatrix) (delta : Q) : Prop :=
  forall i r dt j r',
    get_next_state m i r = (Some dt, j, r') -> (delta <= dt)%Q.

(** In the run of [p], every turn that leaves the loop running has raised
    the value held by [t] by at least [delta]. *)
Definition advances_by (delta sim_length : Q) (p : Patient) : Prop :=
  forall k,
    halted (run (transRateMatrix p) sim_length (S k) (sim_start p)) = false ->
    (t (run (transRateMatrix p) sim_length k (sim_start p)) + delta
     <= t (run (transRateMatrix p) sim_length (S k) (sim_start p)))%Q.

(** What a loop state holds besides the generator. *)
Definition view (st : SimState)
  : Q * bool * PatientStateMonitor * list UpdateCall * option exn :=
  (t st, if_stop st, monitor st, updates st, raised st).

(** The loop of [Patient.simulate] is left after finitely many turns. *)
Definition terminates (sim_length : Q) (p : Patient) : Prop :=
  exists n, halted (run (transRateMatrix p) sim_length n (sim_start p)) = true.

(** A set survival time is kept from monitor [a] to monitor [b]. *)
Definition survivalTime_kept (a b : PatientStateMonitor) : Prop :=
  forall x, survivalTime a = Some x -> survivalTime b = Some x.

(** The stroke counter moves by 0 or +1 from [a] to [b]. *)
Definition nStrokes_step (a b : PatientStateMonitor) : Prop :=
  nStrokes b = nStrokes a \/ nStrokes b = nStrokes a + 1.

(** Both hold between any two consecutive monitor states of the run of [p]. *)
Definition monitor_invariant (sim_length : Q) (p : Patient) : Prop :=
  forall n,
    let a := monitor (run (transRateMatrix p) sim_length n (sim_start p)) in
    let b := monitor (run (transRateMatrix p) sim_length (S n) (sim_start p)) in
    survivalTime_kept a b /\ nStrokes_step a b.

(** [Cohort.simulate] refuses its arguments: it raises
    [InvalidArgumentError] and the cohort is as it was, no outcome
    extracted. *)
Definition rejects_arguments (fuel : nat) (c : Cohort) (sim_length : Q) : Prop :=
  Cohort_simulate fuel c sim_length = Some (c, Some InvalidArgumentError).

(** What a patient's run contributes to the cohort's two sequences. *)
Definition strokes_of (o : option (Patient * option exn)) : Z :=
  match o with
  | Some (p, _) => nStrokes (stateMonitor p)
  | None => 0
  end.

Definition survival_of (o : option (Patient * option exn)) : list Q :=
  match o with
  | Some (p, _) =>
      match survivalTime (stateMonitor p) with Some s => [s] | None => [] end
  | None => []
  end.

(** The monitor after the calls of [l] are performed on [mon] in order. *)
Definition replay (mon : PatientStateMonitor) (l : list UpdateCall)
  : PatientStateMonitor :=
  fold_left (fun mon' u => update mon' (call_time u) (call_state u)) l mon.

(** The time of the last call of [l] with a death-type state; [d] when [l]
    has none. *)
Definition last_death_time (d : option Q) (l : list UpdateCall) : option Q :=
  fold_left (fun acc u => if is_death (call_state u) then Some (call_time u) else acc)
            l d.

(** Number of calls made for the horizon with a stroke-type state. *)
Definition count_horizon_strokes (l : list UpdateCall) : Z :=
  len (filter (fun u => negb (sampled u) && is_stroke (call_state u)) l).

(** The shape of a trajectory: sampled transitions only while the loop runs;
    once the horizon stopped it, one further call, made at [sim_length] with
    the state the patient was in. *)
Inductive trajectory_shape (s0 : HealthStates) (L : Q) (st : SimState) : Prop :=
  | shape_sampled :
      Forall (fun u => sampled u = true) (updates st) ->
      trajectory_shape s0 L st
  | shape_horizon : forall pre h,
      updates st = pre ++ [h] ->
      Forall (fun u => sampled u = true) pre ->
      sampled h = false ->
      call_time h = L ->
      call_state h = last (map call_state pre) s0 ->
      if_stop st = true ->
      t st = L ->
      trajectory_shape s0 L st.

(** The invariant carried through the loop: the shape, the monitor's state
    as the last recorded one, and every call within the horizon. *)
Definition shape_invariant (s0 : HealthStates) (L : Q) (st : SimState) : Prop :=
  trajectory_shape s0 L st
  /\ currentState (monitor st) = last (map call_state (updates st)) s0
  /\ Forall (fun u => (call_time u <= L)%Q) (updates st).

(** Why the loop was stopped: by the horizon, after the one call made for
    it, with [t] at [sim_length]; or because the sampler reported the current
    state absorbing, after sampled transitions only. *)
Definition stop_reason (m : RateMatrix) (L : Q) (st : SimState) : Prop :=
  (t st = L
   /\ exists pre h, updates st = pre ++ [h] /\ sampled h = false
                    /\ call_state h = currentState (monitor st))
  \/ (Forall (fun u => sampled u = true) (updates st)
      /\ exists r, fst (fst (get_next_state m (value (currentState (monitor st))) r))
                   = None).

(** What [extract_outcome] appends for a patient. *)
Definition survival_entry (p : Patient) : list Q :=
  match survivalTime (stateMonitor p) with Some s => [s] | None => [] end.

End Predicates.

(** Two random sources give the same draws on the stream seeded with [seed]:
    their generators created from [seed] are related, and related generators
    give the same holding time and next state for the matrix [m] and are
    related again afterwards.  What the sources do for other seeds is left
    free. *)
Definition streams_agree (GS1 GS2 : GillespieSampler) (m : RateMatrix) (seed : Z)
  : Prop :=
  exists R : @RandomState GS1 -> @RandomState GS2 -> Prop,
    R (@RandomState_seed GS1 seed) (@RandomState_seed GS2 seed)
    /\ forall i r1 r2,
         R r1 r2 ->
         fst (@get_next_state GS1 m i r1) = fst (@get_next_state GS2 m i r2)
         /\ R (snd (@get_next_state GS1 m i r1)) (snd (@get_next_state GS2 m i r2)).

(** ** A concrete enumeration and a concrete sampler for the examples *)

(** Modelled from the spec: the smallest [HealthStates] with the four
    members the source names, valued 0 to 3 in the order the design document
    lists them. *)
Inductive State4 : Type := Well | Stroke | StrokeDead | NaturalDeath.

Definition State4_value (s : State4) : Z :=
  match s with Well => 0 | Stroke => 1 | StrokeDead => 2 | NaturalDeath => 3 end.

Definition State4_call (i : Z) : option State4 :=
  match i with
  | 0 => Some Well
  | 1 => Some Stroke
  | 2 => Some StrokeDead
  | 3 => Some NaturalDeath
  | _ => None
  end.

Definition State4_eq_dec (a b : State4) : {a = b} + {a <> b}.
Proof. decide equality. Defined.

Definition State4_call_value (s : State4) : State4_call (State4_value s) = Some s :=
  match s with
  | Well => eq_refl
  | Stroke => eq_refl
  | StrokeDead => eq_refl
  | NaturalDeath => eq_refl
  end.

Definition State4_distinct : NoDup [Well; Stroke; StrokeDead; NaturalDeath].
Proof.
  repeat constructor; simpl; intuition discriminate.
Qed.

#[export] Instance HS4 : HealthStatesEnum := {|
  HealthStates := State4;
  HealthStates_eq_dec := State4_eq_dec;
  WELL := Well;
  STROKE := Stroke;
  STROKE_DEAD := StrokeDead;
  NATURAL_DEATH := NaturalDeath;
  value := State4_value;
  HealthStates_call := State4_call;
  call_value := State4_call_value;
  named_distinct := State4_distinct
|}.

(** Sum of the rates out of state [i]: the row without its diagonal entry. *)
Fixpoint out_rate (row : list Q) (i : nat) : Q :=
  match row, i with
  | [], _ => 0%Q
  | _ :: row', O => sumQ row'
  | x :: row', S i' => (x + out_rate row' i')%Q
  end.

(** Modelled from the spec: the stepper of the design document with its
    draws read from a table.  A state is absorbing when its row has no
    positive outgoing rate sum (a row the matrix does not have counts as
    empty); otherwise the k-th call on the generator seeded with [s] returns
    the holding time and destination [draws s k].  The generator is the seed
    and the number of calls served. *)
Definition TableSampler (draws : Z -> nat -> Q * Z) : GillespieSampler := {|
  RandomState := Z * nat;
  RandomState_seed := fun s => (s, O);
  get_next_state := fun m i r =>
    if Qgtb (out_rate (nth (Z.to_nat i) m []) (Z.to_nat i)) 0
    then (Some (fst (draws (fst r) (snd r))), snd (draws (fst r) (snd r)),
          (fst r, S (snd r)))
    else (None, i, r)
|}.

(** Well <-> Stroke at rate 1; both death states absorbing. *)
Definition relapsing_matrix : RateMatrix :=
  [ [0; 1; 0; 0]; [1; 0; 0; 0]; [0; 0; 0; 0]; [0; 0; 0; 0] ]%Q.

(** Well -> NaturalDeath at rate 1, and a rate 1 out of NaturalDeath into
    StrokeDead: the death state NaturalDeath is not absorbing. *)
Definition leaky_matrix : RateMatrix :=
  [ [0; 0; 0; 1]; [0; 0; 0; 0]; [0; 0; 0; 0]; [0; 0; 1; 0] ]%Q.

(** Well -> Stroke -> StrokeDead, Well -> NaturalDeath. *)
Definition stroke_matrix : RateMatrix :=
  [ [0; 1; 0; 1]; [0; 0; 1; 0]; [0; 0; 0; 0]; [0; 0; 0; 0] ]%Q.

(** Draws, the same for every seed: holding time 1; the destination is
    Stroke on even calls and Well on odd ones. *)
Definition relapsing_draws (_ : Z) (k : nat) : Q * Z :=
  (1%Q, if Nat.even k then 1 else 0).

(** Draws for [leaky_matrix]: after one unit of time into NaturalDeath, then
    after one more into StrokeDead. *)
Definition leaky_draws (_ : Z) (k : nat) : Q * Z :=
  (1%Q, match k with O => 3 | _ => 2 end).

(** Draws for [stroke_matrix]: Stroke after 1, StrokeDead after 2 more. *)
Definition stroke_draws (_ : Z) (k : nat) : Q * Z :=
  match k with
  | O => (1%Q, 1)
  | _ => (2%Q, 2)
  end.

(** 2^n as a positive number. *)
Definition pow2 (n : nat) : positive := Nat.iter n xO xH.

(** Draws whose holding times 1/2, 1/4, 1/8, ... are all positive and add up
    to less than 1; destinations as in [relapsing_draws]. *)
Definition zeno_draws (_ : Z) (k : nat) : Q * Z :=
  (1 # pow2 (S k), if Nat.even k then 1 else 0).

(** Draws whose destination index 7 is the value of no member. *)
Definition stray_draws (_ : Z) (k : nat) : Q * Z := (1%Q, 7).

(** Draws that are those of [stroke_draws] for the seeds 6 and 7 and take
    the patient to NaturalDeath after five units of time for any other seed. *)
Definition other_draws (s : Z) (k : nat) : Q * Z :=
  if (s =? 6) || (s =? 7) then stroke_draws s k else (5%Q, 3).

Definition other_sampler : GillespieSampler := TableSampler other_draws.
Definition relapsing_sampler : GillespieSampler := TableSampler relapsing_draws.
Definition stray_sampler : GillespieSampler := TableSampler stray_draws.
Definition leaky_sampler : GillespieSampler := TableSampler leaky_draws.
Definition stroke_sampler : GillespieSampler := TableSampler stroke_draws.
Definition zeno_sampler : GillespieSampler := TableSampler zeno_draws.

(** A patient whose monitor is already in STROKE_DEAD. *)
Definition dead_patient : @Patient HS4 :=
  {| Patient_id := 1;
     transRateMatrix := stroke_matrix;
     stateMonitor := {| currentState := StrokeDead;
                        survivalTime := Some 3%Q;
                        nStrokes := 2 |} |}.

(** The cohort of two patients on [stroke_matrix] and [stroke_draws] after
    [Cohort.simulate] over ten units of time: both patients have a stroke at
    time 1 and die of it at time 3. *)
Definition stroke_cohort_done : Cohort :=
  set_cohortOutcomes (Cohort_init 0 2 stroke_matrix)
    {| survivalTimes := [3; 3]%Q;
       nTotalStrokes := [2; 2];
       nLivingPatients :=
         Some {| name := "# of living patients";
                 initial_size := 2;
                 times_of_changes := [3; 3]%Q;
                 increments := [-1; -1] |};
       meanSurvivalTime := Some (6 # 2);
       meanNumOfStrokes := Some (4 # 2) |}.

(** The loop state of the run on [zeno_draws] after [n] turns: still running,
    [n] draws served, Well and Stroke in turn, and [t = 1 - 1/2^n]. *)
Definition zeno_state (n : nat) (st : @SimState HS4 zeno_sampler) : Prop :=
  if_stop st = false
  /\ raised st = None
  /\ rng st = (0, n)
  /\ currentState (monitor st) = (if Nat.even n then Well else Stroke)
  /\ (t st == 1 - (1 # pow2 n))%Q.

(** * Properties *)

Section Facts.

Context {HS : HealthStatesEnum} {GS : GillespieSampler}.

(** ** Comparisons and membership *)

Lemma Qgtb_true (a b : Q) : Qgtb a b = true <-> (b < a)%Q.
Proof.
  unfold Qgtb. rewrite negb_true_iff. split; intro H.
  - apply Qnot_le_lt. intro Hle. apply Qle_bool_iff in Hle. congruence.
  - destruct (Qle_bool a b) eqn:E; [|reflexivity].
    apply Qle_bool_iff in E. exfalso. exact (Qlt_not_le _ _ H E).
Qed.

Lemma Qgtb_false (a b : Q) : Qgtb a b = false <-> (a <= b)%Q.
Proof.
  unfold Qgtb. rewrite negb_false_iff. apply Qle_bool_iff.
Qed.

Lemma in_tuple_In (x : HealthStates) (l : list HealthStates) :
  in_tuple x l = true <-> In x l.
Proof.
  unfold in_tuple. rewrite existsb_exists. split.
  - intros (y & Hy & E). destruct (HealthStates_eq_dec x y); [subst; assumption | discriminate].
  - intro H. exists x. split; [assumption|].
    destruct (HealthStates_eq_dec x x); congruence.
Qed.

Lemma WELL_not_death : is_death WELL = false.
Proof.
  destruct (is_death WELL) eqn:E; [|reflexivity].
  apply in_tuple_In in E. pose proof named_distinct as D.
  inversion D as [|? ? Hn _]; subst. exfalso. apply Hn.
  simpl in *. intuition.
Qed.

Lemma WELL_not_stroke : is_stroke WELL = false.
Proof.
  destruct (is_stroke WELL) eqn:E; [|reflexivity].
  apply in_tuple_In in E. pose proof named_distinct as D.
  inversion D as [|? ? Hn _]; subst. exfalso. apply Hn.
  simpl in *. intuition.
Qed.

Lemma update_WELL_init (time : Q) :
  update PatientStateMonitor_init time WELL = PatientStateMonitor_init.
Proof.
  unfold update. fold (is_death WELL). fold (is_stroke WELL).
  rewrite WELL_not_death, WELL_not_stroke. reflexivity.
Qed.

(** ** The four ways through the loop body *)

Inductive body_case (m : RateMatrix) (sim_length : Q) (st : SimState)
  : SimState -> Prop :=
  | case_absorbing : forall j r',
      get_next_state m (value (currentState (monitor st))) (rng st) = (None, j, r') ->
      body_case m sim_length st
        {| t := t st; if_stop := true; rng := r'; monitor := monitor st;
           updates := updates st; raised := None |}
  | case_horizon : forall dt j r',
      get_next_state m (value (currentState (monitor st))) (rng st) = (Some dt, j, r') ->
      (sim_length < dt + t st)%Q ->
      body_case m sim_length st
        {| t := sim_length; if_stop := true; rng := r';
           monitor := update (monitor st) sim_length (currentState (monitor st));
           updates := updates st
                        ++ [{| call_time := sim_length;
                               call_state := currentState (monitor st);
                               sampled := false |}];
           raised := None |}
  | case_transition : forall dt j r' s,
      get_next_state m (value (currentState (monitor st))) (rng st) = (Some dt, j, r') ->
      (dt + t st <= sim_length)%Q ->
      HealthStates_call j = Some s ->
      body_case m sim_length st
        {| t := (t st + dt)%Q; if_stop := if_stop st; rng := r';
           monitor := update (monitor st) (t st + dt)%Q s;
           updates := updates st
                        ++ [{| call_time := (t st + dt)%Q; call_state := s;
                               sampled := true |}];
           raised := None |}
  | case_ValueError : forall dt j r',
      get_next_state m (value (currentState (monitor st))) (rng st) = (Some dt, j, r') ->
      (dt + t st <= sim_length)%Q ->
      HealthStates_call j = None ->
      body_case m sim_length st
        {| t := (t st + dt)%Q; if_stop := if_stop st; rng := r';
           monitor := monitor st; updates := updates st;
           raised := Some ValueError |}.

Lemma loop_body_cases (m : RateMatrix) (sim_length : Q) (st : SimState) :
  body_case m sim_length st (loop_body m sim_length st).
Proof.
  unfold loop_body.
  destruct (get_next_state m (value (currentState (monitor st))) (rng st))
    as [[[dt|] j] r'] eqn:E.
  - destruct (Qgtb (dt + t st) sim_length) eqn:G.
    + rewrite call_value. apply Qgtb_true in G.
      eapply case_horizon; eassumption.
    + apply Qgtb_false in G.
      destruct (HealthStates_call j) as [s|] eqn:C.
      * eapply case_transition; eassumption.
      * eapply case_ValueError; eassumption.
  - eapply case_absorbing; eassumption.
Qed.

(** ** The bounded run *)

Lemma run_S (m : RateMatrix) (L : Q) (n : nat) (st : SimState) :
  run m L (S n) st = step m L (run m L n st).
Proof. reflexivity. Qed.

Lemma step_halted (m : RateMatrix) (L : Q) (st : SimState) :
  halted st = true -> step m L st = st.
Proof. unfold step. intros ->. reflexivity. Qed.

Lemma step_running (m : RateMatrix) (L : Q) (st : SimState) :
  halted st = false -> step m L st = loop_body m L st.
Proof. unfold step. intros ->. reflexivity. Qed.

Lemma run_halted (m : RateMatrix) (L : Q) (n : nat) (st : SimState) :
  halted st = true -> run m L n st = st.
Proof.
  intro H. induction n as [|n IH]; [reflexivity|].
  rewrite run_S, IH. apply step_halted, H.
Qed.

Lemma run_add (m : RateMatrix) (L : Q) (n k : nat) (st : SimState) :
  run m L (n + k) st = run m L n (run m L k st).
Proof.
  induction n as [|n IH]; [reflexivity|].
  simpl Nat.add. rewrite !run_S, IH. reflexivity.
Qed.

Lemma run_halted_le (m : RateMatrix) (L : Q) (n k : nat) (st : SimState) :
  halted (run m L k st) = true -> (k <= n)%nat -> run m L n st = run m L k st.
Proof.
  intros H Hle. replace n with ((n - k) + k)%nat by lia.
  rewrite run_add. apply run_halted, H.
Qed.

(** An invariant of one turn is an invariant of the run. *)
Lemma run_invariant (P : SimState -> Prop) (m : RateMatrix) (L : Q) :
  (forall st, P st -> halted st = false -> P (loop_body m L st)) ->
  forall n st, P st -> P (run m L n st).
Proof.
  intros Hstep n st H0. induction n as [|n IH]; [exact H0|].
  rewrite run_S. unfold step.
  destruct (halted (run m L n st)) eqn:E; [exact IH|].
  apply Hstep; assumption.
Qed.

(** ** Reading the monitor after [update] *)

Lemma currentState_update (mon : PatientStateMonitor) (time : Q) (s : HealthStates) :
  currentState (update mon time s) = s.
Proof. reflexivity. Qed.

Lemma survivalTime_update (mon : PatientStateMonitor) (time : Q) (s : HealthStates) :
  survivalTime (update mon time s)
  = if is_death s then Some time else survivalTime mon.
Proof. reflexivity. Qed.

Lemma nStrokes_update (mon : PatientStateMonitor) (time : Q) (s : HealthStates) :
  nStrokes (update mon time s)
  = if is_stroke s then nStrokes mon + 1 else nStrokes mon.
Proof. reflexivity. Qed.

Lemma nStrokes_step_update (mon : PatientStateMonitor) (time : Q) (s : HealthStates) :
  nStrokes_step mon (update mon time s).
Proof.
  unfold nStrokes_step. rewrite nStrokes_update.
  destruct (is_stroke s); [right|left]; reflexivity.
Qed.

(** Whatever the matrix, one turn of the loop moves [nStrokes] by 0 or +1. *)
Lemma nStrokes_step_turn (m : RateMatrix) (L : Q) (st : SimState) :
  nStrokes_step (monitor st) (monitor (step m L st)).
Proof.
  unfold step. destruct (halted st); [left; reflexivity|].
  destruct (loop_body_cases m L st); cbn [monitor];
    try (left; reflexivity); apply nStrokes_step_update.
Qed.

(** ** The record of a death *)

(** Either the patient is alive, no survival time is set and no call entered
    a death-type state; or the patient is in a death-type state, the last
    call of the history is the sampled transition into it, and the survival
    time is the time of that call, within the horizon. *)
Inductive death_record (L : Q) (st : SimState) : Prop :=
  | record_alive :
      is_death (currentState (monitor st)) = false ->
      survivalTime (monitor st) = None ->
      no_death_call (updates st) ->
      death_record L st
  | record_dead : forall pre tm,
      is_death (currentState (monitor st)) = true ->
      survivalTime (monitor st) = Some tm ->
      updates st
      = pre ++ [{| call_time := tm; call_state := currentState (monitor st);
                   sampled := true |}] ->
      no_death_call pre ->
      (tm <= L)%Q ->
      death_record L st.

Lemma death_state_absorbing (m : RateMatrix) (s : HealthStates) :
  absorbing m (value STROKE_DEAD) -> absorbing m (value NATURAL_DEATH) ->
  is_death s = true -> absorbing m (value s).
Proof.
  intros A1 A2 D. apply in_tuple_In in D. simpl in D.
  destruct D as [<-|[<-|[]]]; assumption.
Qed.

Lemma absorbing_no_draw (m : RateMatrix) (i : Z) (r r' : RandomState) (dt : Q) (j : Z) :
  absorbing m i -> get_next_state m i r = (Some dt, j, r') -> False.
Proof.
  intros A E. specialize (A r). rewrite E in A. discriminate.
Qed.

Lemma no_death_call_app (l : list UpdateCall) (u : UpdateCall) :
  no_death_call l -> is_death (call_state u) = false -> no_death_call (l ++ [u]).
Proof.
  intros Hl Hu v Hv. apply in_app_or in Hv.
  destruct Hv as [Hv|[<-|[]]]; [apply Hl, Hv | exact Hu].
Qed.

Lemma death_record_body (m : RateMatrix) (L : Q) (st : SimState) :
  absorbing m (value STROKE_DEAD) -> absorbing m (value NATURAL_DEATH) ->
  death_record L st -> halted st = false -> death_record L (loop_body m L st).
Proof.
  intros A1 A2 R _.
  destruct (loop_body_cases m L st) as [j r' E|dt j r' E G|dt j r' s E G C|dt j r' E G C].
  - destruct R as [D S N|pre tm D S U N B].
    + apply record_alive; assumption.
    + eapply record_dead; eassumption.
  - destruct R as [D S N|pre tm D S U N B].
    + apply record_alive; cbn [monitor updates].
      * rewrite currentState_update. exact D.
      * rewrite survivalTime_update, D. exact S.
      * apply no_death_call_app; [exact N | exact D].
    + exfalso. eapply absorbing_no_draw; [|exact E].
      apply death_state_absorbing; assumption.
  - destruct R as [D S N|pre tm D S U N B].
    + destruct (is_death s) eqn:Ds.
      * apply record_dead with (pre := updates st) (tm := (t st + dt)%Q);
          cbn [monitor updates].
        -- rewrite currentState_update. exact Ds.
        -- rewrite survivalTime_update, Ds. reflexivity.
        -- rewrite currentState_update. reflexivity.
        -- exact N.
        -- rewrite Qplus_comm. exact G.
      * apply record_alive; cbn [monitor updates].
        -- rewrite currentState_update. exact Ds.
        -- rewrite survivalTime_update, Ds. exact S.
        -- apply no_death_call_app; [exact N | exact Ds].
    + exfalso. eapply absorbing_no_draw; [|exact E].
      apply death_state_absorbing; assumption.
  - destruct R as [D S N|pre tm D S U N B].
    + apply record_alive; assumption.
    + eapply record_dead; eassumption.
Qed.

Lemma death_record_start (L : Q) (id : Z) (m : RateMatrix) :
  death_record L (sim_start (Patient_init id m)).
Proof.
  apply record_alive; simpl.
  - apply WELL_not_death.
  - reflexivity.
  - intros u [].
Qed.

Lemma death_record_run (m : RateMatrix) (L : Q) (id : Z) (n : nat) :
  absorbing m (value STROKE_DEAD) -> absorbing m (value NATURAL_DEATH) ->
  death_record L (run m L n (sim_start (Patient_init id m))).
Proof.
  intros A1 A2. apply run_invariant.
  - intros st R H. apply death_record_body; assumption.
  - apply death_record_start.
Qed.

(** ** The horizon *)

(** C2: when the sampled holding time overshoots the horizon
    ([t + dt > sim_length]), the turn sets [t] to [sim_length], calls [update]
    exactly once, with the clamped time and the state held before the turn,
    and sets [if_stop]; the sampled destination [j] occurs nowhere in the
    resulting state, and later turns change nothing. *)
Theorem horizon_overshoot_keeps_current_state
  (m : RateMatrix) (sim_length : Q) (st : SimState)
  (dt : Q) (j : Z) (r' : RandomState) :
  halted st = false ->
  get_next_state m (value (currentState (monitor st))) (rng st) = (Some dt, j, r') ->
  (t st + dt > sim_length)%Q ->
  let st' := step m sim_length st in
  st' = {| t := sim_length;
           if_stop := true;
           rng := r';
           monitor := update (monitor st) sim_length (currentState (monitor st));
           updates := updates st
                        ++ [{| call_time := sim_length;
                               call_state := currentState (monitor st);
                               sampled := false |}];
           raised := None |}
  /\ forall k, run m sim_length k st' = st'.
Proof.
  intros H E G st'.
  assert (Hst' : st' = {| t := sim_length;
           if_stop := true;
           rng := r';
           monitor := update (monitor st) sim_length (currentState (monitor st));
           updates := updates st
                        ++ [{| call_time := sim_length;
                               call_state := currentState (monitor st);
                               sampled := false |}];
           raised := None |}).
  { subst st'. rewrite step_running by exact H.
    unfold loop_body. rewrite E.
    assert (B : Qgtb (dt + t st) sim_length = true).
    { apply Qgtb_true. rewrite Qplus_comm. exact G. }
    rewrite B, call_value. reflexivity. }
  split; [exact Hst'|].
  intro k. apply run_halted. rewrite Hst'. reflexivity.
Qed.

(** ** Survival time *)

(** C3: for a newly created patient and a matrix whose death-type states are
    absorbing, at every turn of the run (so also when the loop is left, where
    [simulate] returns this monitor): if the current state is a death-type
    state, the last call of the trajectory is the sampled transition into it,
    no earlier call entered a death-type state, and [survivalTime] is the time
    of that call, at most [sim_length]; otherwise [survivalTime] is [None]. *)
Theorem survivalTime_is_time_of_death
  (id : Z) (m : RateMatrix) (sim_length : Q) (n : nat) :
  absorbing m (value STROKE_DEAD) ->
  absorbing m (value NATURAL_DEATH) ->
  let st := run m sim_length n (sim_start (Patient_init id m)) in
  (forall p' e, simulate n (Patient_init id m) sim_length = Some (p', e) ->
                stateMonitor p' = monitor st)
  /\ if is_death (currentState (monitor st))
     then exists pre tm,
         updates st
         = pre ++ [{| call_time := tm; call_state := currentState (monitor st);
                      sampled := true |}]
         /\ no_death_call pre
         /\ survivalTime (monitor st) = Some tm
         /\ (tm <= sim_length)%Q
     else survivalTime (monitor st) = None.
Proof.
  intros A1 A2 st. split.
  - intros p' e. unfold simulate. cbn [transRateMatrix Patient_init]. fold st.
    destruct (halted st); [|discriminate].
    intro E. inversion E. reflexivity.
  - destruct (death_record_run m sim_length id n A1 A2) as [D S N|pre tm D S U N B];
      fold st in D, S, N |- *; rewrite D.
    + exact S.
    + exists pre, tm. fold st in U. auto.
Qed.

(** ** The monitor along the run *)

(** C6, as the code has it: for a newly created patient and a matrix whose
    death-type states are absorbing, between any two consecutive monitor
    states of the run a set [survivalTime] keeps its value and [nStrokes]
    moves by 0 or +1. *)
Theorem monitor_invariant_when_deaths_absorb
  (id : Z) (m : RateMatrix) (sim_length : Q) :
  absorbing m (value STROKE_DEAD) ->
  absorbing m (value NATURAL_DEATH) ->
  monitor_invariant sim_length (Patient_init id m).
Proof.
  intros A1 A2 n. cbn [transRateMatrix Patient_init].
  set (st := run m sim_length n (sim_start (Patient_init id m))).
  rewrite run_S. fold st. cbv zeta. split.
  - intros x Hx. unfold step. destruct (halted st); [exact Hx|].
    destruct (death_record_run m sim_length id n A1 A2) as [D S N|pre tm D S U N B];
      fold st in D, S.
    + congruence.
    + destruct (loop_body_cases m sim_length st)
        as [j r' E|dt j r' E G|dt j r' s E G C|dt j r' E G C];
        try exact Hx;
        exfalso; (eapply absorbing_no_draw; [|exact E]);
        apply death_state_absorbing; assumption.
  - apply nStrokes_step_turn.
Qed.

(** ** Counting strokes *)

Lemma count_stroke_calls_app (l : list UpdateCall) (u : UpdateCall) :
  count_stroke_calls (l ++ [u])
  = count_stroke_calls l + (if is_stroke (call_state u) then 1 else 0).
Proof.
  unfold count_stroke_calls, len. rewrite filter_app, length_app.
  cbn [filter]. destruct (is_stroke (call_state u)); cbn [length]; lia.
Qed.

(** What the counter holds: one per call of [update] with a stroke-type
    state, the call made for the horizon included. *)
Lemma nStrokes_counts_every_call (m : RateMatrix) (L : Q) (p : Patient) (n : nat) :
  let st := run m L n (sim_start p) in
  nStrokes (monitor st) = nStrokes (stateMonitor p) + count_stroke_calls (updates st).
Proof.
  cbv zeta. apply run_invariant with
    (P := fun st => nStrokes (monitor st)
                    = nStrokes (stateMonitor p) + count_stroke_calls (updates st)).
  - intros st I _.
    destruct (loop_body_cases m L st); cbn [monitor updates];
      rewrite ?count_stroke_calls_app, ?nStrokes_update; cbn [call_state];
      try exact I.
    + destruct (is_stroke (currentState (monitor st))); lia.
    + destruct (is_stroke s); lia.
  - cbn. lia.
Qed.

(** ** Termination *)

Lemma enough_turns (delta L : Q) :
  (0 < delta)%Q -> exists n, (L < inject_Z (Z.of_nat n) * delta)%Q.
Proof.
  intro Hd. destruct (Qarchimedean (L / delta)) as [k Hk].
  exists (Pos.to_nat k). rewrite positive_nat_Z.
  change (inject_Z (Z.pos k)) with (Z.pos k # 1).
  assert (E : (L / delta * delta == L)%Q) by (field; lra).
  rewrite <- E at 1. apply Qmult_lt_compat_r; assumption.
Qed.

Lemma halted_simulate (p : Patient) (L : Q) (n k : nat) :
  halted (run (transRateMatrix p) L n (sim_start p)) = true ->
  (n <= k)%nat ->
  simulate k p L
  = Some ({| Patient_id := Patient_id p;
             transRateMatrix := transRateMatrix p;
             stateMonitor := monitor (run (transRateMatrix p) L n (sim_start p)) |},
          raised (run (transRateMatrix p) L n (sim_start p))).
Proof.
  intros H Hle. unfold simulate.
  rewrite (run_halted_le _ _ k n _ H Hle), H. reflexivity.
Qed.

(** A turn after which the loop still runs was a sampled transition that
    passed the horizon test. *)
Lemma running_turn (m : RateMatrix) (L : Q) (st : SimState) :
  halted st = false ->
  halted (loop_body m L st) = false ->
  exists dt j r',
    get_next_state m (value (currentState (monitor st))) (rng st) = (Some dt, j, r')
    /\ (dt + t st <= L)%Q
    /\ t (loop_body m L st) = (t st + dt)%Q.
Proof.
  intros _ H.
  destruct (loop_body_cases m L st)
    as [j r' E|dt j r' E G|dt j r' s E G C|dt j r' E G C];
    unfold halted in H; cbn [if_stop raised] in H; rewrite ?orb_true_r in H;
    try discriminate H.
  exists dt, j, r'. cbn [t]. auto.
Qed.

Lemma running_before (m : RateMatrix) (L : Q) (n : nat) (st : SimState) :
  halted (run m L (S n) st) = false -> halted (run m L n st) = false.
Proof.
  rewrite run_S. intro H.
  destruct (halted (run m L n st)) eqn:E; [|reflexivity].
  rewrite (step_halted _ _ _ E) in H. congruence.
Qed.

Lemma running_within_horizon (m : RateMatrix) (L : Q) (n : nat) (st : SimState) :
  halted (run m L (S n) st) = false -> (t (run m L (S n) st) <= L)%Q.
Proof.
  intro H. pose proof (running_before m L n st H) as Hn.
  rewrite run_S, (step_running _ _ _ Hn) in H |- *.
  destruct (running_turn m L _ Hn H) as (dt & j & r' & _ & G & ->).
  rewrite Qplus_comm. exact G.
Qed.

Lemma time_at_most_horizon (m : RateMatrix) (L : Q) (p : Patient) (n : nat) :
  (0 <= L)%Q -> (t (run m L n (sim_start p)) <= L)%Q.
Proof.
  intro HL. apply run_invariant with (P := fun st => (t st <= L)%Q).
  - intros st I _.
    destruct (loop_body_cases m L st)
      as [j r' E|dt j r' E G|dt j r' s E G C|dt j r' E G C]; cbn [t];
      try exact I; try apply Qle_refl; rewrite Qplus_comm; exact G.
  - exact HL.
Qed.

Lemma advances_growth (delta L : Q) (p : Patient) (n : nat) :
  advances_by delta L p ->
  halted (run (transRateMatrix p) L n (sim_start p)) = false ->
  (inject_Z (Z.of_nat n) * delta
   <= t (run (transRateMatrix p) L n (sim_start p)))%Q.
Proof.
  intro A. induction n as [|n IH]; intro H.
  - change (0 * delta <= 0)%Q. lra.
  - specialize (IH (running_before _ _ _ _ H)). specialize (A n H).
    rewrite Nat2Z.inj_succ. unfold Z.succ. rewrite inject_Z_plus.
    change (inject_Z 1) with 1%Q. lra.
Qed.

Lemma halted_when_advancing (delta L : Q) (p : Patient) (n : nat) :
  advances_by delta L p ->
  (1 <= n)%nat ->
  (L < inject_Z (Z.of_nat n) * delta)%Q ->
  halted (run (transRateMatrix p) L n (sim_start p)) = true.
Proof.
  intros A Hn HL.
  destruct (halted (run (transRateMatrix p) L n (sim_start p))) eqn:E; [reflexivity|].
  pose proof (advances_growth delta L p n A E) as G.
  destruct n as [|n]; [lia|].
  pose proof (running_within_horizon _ _ _ _ E). lra.
Qed.

(** With exact sums, holding times of at least [delta] for the patient's
    matrix make every running turn raise [t] by at least [delta]. *)
Lemma advances_by_holding_times (delta L : Q) (p : Patient) :
  holding_times_of (transRateMatrix p) delta -> advances_by delta L p.
Proof.
  intros Hh k H. pose proof (running_before _ _ _ _ H) as Hk.
  rewrite run_S, (step_running _ _ _ Hk) in H |- *.
  destruct (running_turn _ _ _ Hk H) as (dt & j & r' & E & _ & ->).
  pose proof (Hh _ _ _ _ _ E). lra.
Qed.

(** C7, as the code has it.  A turn of the running loop does one of three
    things: the stepper returns no holding time and the loop stops with [t]
    unchanged; or [dt + t > sim_length] and the loop stops with
    [t = sim_length]; or [t] becomes [t + dt], which is at most [sim_length],
    and the loop goes on unless [HealthStates(index)] raises [ValueError].
    When [sim_length] is not negative, [t] never exceeds it.  Termination is
    conditional: if every turn that leaves the loop running has raised the
    value held by [t] by at least some [delta > 0], the loop is left after [n]
    turns for every [n >= 1] with [n * delta > sim_length], and [simulate]
    returns for that bound.  The condition is on the values [t] takes, not on
    how [t + dt] is computed. *)
Theorem simulate_turns_and_conditional_termination
  (sim_length : Q) (p : Patient) :
  (forall n,
     let st := run (transRateMatrix p) sim_length n (sim_start p) in
     let st' := loop_body (transRateMatrix p) sim_length st in
     let dt := fst (fst (get_next_state (transRateMatrix p)
                           (value (currentState (monitor st))) (rng st))) in
     halted st = false ->
     (dt = None /\ if_stop st' = true /\ t st' = t st)
     \/ (exists d, dt = Some d /\ (sim_length < d + t st)%Q
                   /\ if_stop st' = true /\ t st' = sim_length)
     \/ (exists d, dt = Some d /\ (d + t st <= sim_length)%Q
                   /\ if_stop st' = false
                   /\ t st' = (t st + d)%Q /\ (t st' <= sim_length)%Q
                   /\ (raised st' = None \/ raised st' = Some ValueError)))
  /\ ((0 <= sim_length)%Q ->
      forall n, (t (run (transRateMatrix p) sim_length n (sim_start p))
                 <= sim_length)%Q)
  /\ (forall delta,
        (0 < delta)%Q ->
        advances_by delta sim_length p ->
        terminates sim_length p
        /\ forall n,
             (1 <= n)%nat ->
             (sim_length < inject_Z (Z.of_nat n) * delta)%Q ->
             halted (run (transRateMatrix p) sim_length n (sim_start p)) = true
             /\ simulate n p sim_length <> None).
Proof.
  split; [|split].
  - intros n st st' dt H.
    assert (Hs : if_stop st = false).
    { unfold halted in H. apply orb_false_elim in H. tauto. }
    subst st' dt.
    destruct (loop_body_cases (transRateMatrix p) sim_length st)
      as [j r' E|d j r' E G|d j r' s E G C|d j r' E G C];
      rewrite E; cbn [fst t if_stop raised].
    + left. auto.
    + right; left. exists d. auto.
    + right; right. exists d. repeat split; try assumption; try reflexivity.
      * rewrite Qplus_comm. exact G.
      * left. reflexivity.
    + right; right. exists d. repeat split; try assumption; try reflexivity.
      * rewrite Qplus_comm. exact G.
      * right. reflexivity.
  - intros HL n. apply time_at_most_horizon, HL.
  - intros delta Hd A.
    assert (B : forall n, (1 <= n)%nat ->
                (sim_length < inject_Z (Z.of_nat n) * delta)%Q ->
                halted (run (transRateMatrix p) sim_length n (sim_start p)) = true
                /\ simulate n p sim_length <> None).
    { intros n Hn HL.
      pose proof (halted_when_advancing delta sim_length p n A Hn HL) as HH.
      split; [exact HH|].
      rewrite (halted_simulate p sim_length n n HH (Nat.le_refl n)). discriminate. }
    split; [|exact B].
    destruct (enough_turns delta sim_length Hd) as [N HN].
    exists (S N). apply B; [lia|].
    rewrite Nat2Z.inj_succ. unfold Z.succ. rewrite inject_Z_plus.
    change (inject_Z 1) with 1%Q. lra.
Qed.

(** ** Determinism and independence of the patients *)

Lemma simulate_patients_outcomes (fuel : nat) (c : Cohort) (L : Q) (idxs : list Z) :
  forall co co',
    simulate_patients fuel c L idxs co = Some (co', None) ->
    nTotalStrokes co'
    = nTotalStrokes co
        ++ map (fun i => strokes_of
                  (simulate fuel
                     (Patient_init (Cohort_id c * popSize c + i)
                        (Cohort_transRateMatrix c)) L)) idxs
    /\ survivalTimes co'
       = survivalTimes co
           ++ flat_map (fun i => survival_of
                     (simulate fuel
                        (Patient_init (Cohort_id c * popSize c + i)
                           (Cohort_transRateMatrix c)) L)) idxs.
Proof.
  induction idxs as [|i idxs IH]; intros co co' H; cbn [simulate_patients] in H.
  - inversion H; subst. cbn [map flat_map]. rewrite !app_nil_r. split; reflexivity.
  - cbn [map flat_map].
    destruct (simulate fuel
                (Patient_init (Cohort_id c * popSize c + i) (Cohort_transRateMatrix c)) L)
      as [[p' [e|]]|] eqn:E; try discriminate H.
    destruct (IH _ _ H) as [H1 H2]. rewrite H1, H2.
    cbn [strokes_of survival_of extract_outcome nTotalStrokes survivalTimes].
    split.
    + rewrite <- app_assoc. reflexivity.
    + destruct (survivalTime (stateMonitor p')); rewrite <- ?app_assoc; reflexivity.
Qed.

(** ** Aggregation *)

Lemma calculate_empty (co : CohortOutcomes) (n : Z) :
  survivalTimes co = [] ->
  calculate_cohort_outcomes co n = (co, Some ZeroDivisionError).
Proof.
  intro E. unfold calculate_cohort_outcomes. rewrite E. reflexivity.
Qed.

Lemma len_nonempty {A : Type} (l : list A) : l <> [] -> (len l =? 0) = false.
Proof.
  intro H. destruct l as [|a l]; [congruence|].
  apply Z.eqb_neq. unfold len. cbn [length]. lia.
Qed.

(** C4: with an empty [survivalTimes], [calculate_cohort_outcomes] raises
    [ZeroDivisionError] and sets no mean; with a non-empty one it sets
    [meanSurvivalTime] to the sum of the recorded survival times divided by
    their number. *)
Theorem meanSurvivalTime_is_mean_or_ZeroDivisionError
  (co : CohortOutcomes) (initial_pop_size : Z) :
  (survivalTimes co = [] ->
   calculate_cohort_outcomes co initial_pop_size = (co, Some ZeroDivisionError))
  /\ (survivalTimes co <> [] ->
      meanSurvivalTime (fst (calculate_cohort_outcomes co initial_pop_size))
      = Some (sumQ (survivalTimes co) / inject_Z (len (survivalTimes co)))%Q).
Proof.
  split.
  - apply calculate_empty.
  - intro H. unfold calculate_cohort_outcomes, true_div.
    rewrite (len_nonempty _ H). cbn [nTotalStrokes].
    destruct (len (nTotalStrokes co) =? 0); reflexivity.
Qed.

(** [extract_outcome] leaves the two means and the curve as they are. *)
Lemma extract_keeps_summaries (ps : list Patient) :
  forall co,
    let co' := fold_left extract_outcome ps co in
    meanSurvivalTime co' = meanSurvivalTime co
    /\ meanNumOfStrokes co' = meanNumOfStrokes co
    /\ nLivingPatients co' = nLivingPatients co.
Proof.
  induction ps as [|p ps IH]; intro co; cbn [fold_left].
  - auto.
  - apply (IH (extract_outcome co p)).
Qed.

(** C10: on a [CohortOutcomes] built by [__init__] and any number of
    [extract_outcome] calls, if [survivalTimes] is empty then
    [calculate_cohort_outcomes] raises [ZeroDivisionError] and returns the
    object as it was, with [meanSurvivalTime], [meanNumOfStrokes] and
    [nLivingPatients] still [None]. *)
Theorem empty_survivalTimes_leaves_outcomes_unchanged
  (ps : list Patient) (initial_pop_size : Z) :
  let co := fold_left extract_outcome ps CohortOutcomes_init in
  survivalTimes co = [] ->
  calculate_cohort_outcomes co initial_pop_size = (co, Some ZeroDivisionError)
  /\ meanSurvivalTime co = None
  /\ meanNumOfStrokes co = None
  /\ nLivingPatients co = None.
Proof.
  intros co E. split; [apply calculate_empty, E|].
  apply (extract_keeps_summaries ps CohortOutcomes_init).
Qed.

(** ** The survival curve *)

Lemma combine_repeat {A B : Type} (l : list A) (x : B) :
  combine l (repeat x (length l)) = map (fun a => (a, x)) l.
Proof.
  induction l as [|a l IH]; [reflexivity|].
  cbn [length repeat combine map]. rewrite IH. reflexivity.
Qed.

Lemma insert_change_perm (c : Q * Z) (l : list (Q * Z)) :
  Permutation (insert_change c l) (c :: l).
Proof.
  induction l as [|d l IH]; cbn [insert_change].
  - apply Permutation_refl.
  - destruct (Qle_bool (fst c) (fst d)).
    + apply Permutation_refl.
    + apply perm_trans with (d :: c :: l).
      * apply perm_skip, IH.
      * apply perm_swap.
Qed.

Lemma sort_changes_perm (l : list (Q * Z)) : Permutation (sort_changes l) l.
Proof.
  induction l as [|c l IH]; cbn [sort_changes].
  - apply perm_nil.
  - apply perm_trans with (c :: sort_changes l).
    + apply insert_change_perm.
    + apply perm_skip, IH.
Qed.

Lemma insert_change_HdRel (d c : Q * Z) (l : list (Q * Z)) :
  HdRel earlier d l -> earlier d c -> HdRel earlier d (insert_change c l).
Proof.
  intros Hl Hc. destruct l as [|e l]; cbn [insert_change].
  - constructor. exact Hc.
  - destruct (Qle_bool (fst c) (fst e)); constructor.
    + exact Hc.
    + inversion Hl; assumption.
Qed.

Lemma insert_change_sorted (c : Q * Z) (l : list (Q * Z)) :
  Sorted earlier l -> Sorted earlier (insert_change c l).
Proof.
  induction l as [|d l IH]; intro S; cbn [insert_change].
  - repeat constructor.
  - destruct (Qle_bool (fst c) (fst d)) eqn:E.
    + constructor; [exact S|]. constructor. apply Qle_bool_iff, E.
    + inversion S as [|? ? S' H']; subst. constructor.
      * apply IH, S'.
      * apply insert_change_HdRel; [exact H'|].
        unfold earlier. apply Qlt_le_weak. apply Qgtb_true.
        unfold Qgtb. rewrite E. reflexivity.
Qed.

Lemma sort_changes_sorted (l : list (Q * Z)) : Sorted earlier (sort_changes l).
Proof.
  induction l as [|c l IH]; cbn [sort_changes].
  - constructor.
  - apply insert_change_sorted, IH.
Qed.

Lemma sorted_times (l : list (Q * Z)) :
  Sorted earlier l -> Sorted Qle (map fst l).
Proof.
  induction 1 as [|c l S IH H]; cbn [map]; constructor.
  - exact IH.
  - destruct H; cbn [map]; constructor. assumption.
Qed.

Lemma accumulate_times (size : Z) (l : list (Q * Z)) :
  map fst (accumulate size l) = map fst l.
Proof.
  revert size. induction l as [|[time inc] l IH]; intro size; [reflexivity|].
  cbn [accumulate map fst]. rewrite IH. reflexivity.
Qed.

Lemma accumulate_steps_down (size : Z) (l : list (Q * Z)) :
  Forall (fun c => snd c = -1) l ->
  steps_down size (map snd (accumulate size l)).
Proof.
  intro F. revert size. induction F as [|[time inc] l H F IH]; intro size.
  - exact I.
  - cbn [snd] in H. subst inc. cbn [accumulate map snd steps_down].
    split; [lia|]. apply IH.
Qed.

Lemma steps_down_nth (x : Z) (l : list Z) :
  steps_down x l ->
  forall k, (k <= length l)%nat -> nth k (x :: l) 0 = x - Z.of_nat k.
Proof.
  revert x. induction l as [|y l IH]; intros x S k Hk.
  - cbn [length] in Hk. replace k with O by lia. cbn. lia.
  - destruct S as [-> S]. destruct k as [|k].
    + cbn. lia.
    + change (nth k (x - 1 :: l) 0 = x - Z.of_nat (Datatypes.S k)).
      cbn [length] in Hk. rewrite (IH _ S k) by lia. lia.
Qed.

Lemma steps_down_nonincreasing (x : Z) (l : list Z) :
  steps_down x l -> Sorted Z.ge (x :: l).
Proof.
  revert x. induction l as [|y l IH]; intros x S.
  - repeat constructor.
  - destruct S as [E S]. constructor.
    + apply IH, S.
    + constructor. lia.
Qed.

(** C9: when [calculate_cohort_outcomes] completes, the curve it stores
    starts with the count [initial_pop_size] at time 0; the times of the later
    breakpoints are the recorded survival times, each one once, in
    non-decreasing order; each breakpoint's count is the one before it minus
    1, so the k-th count is [initial_pop_size - k] and the counts never
    increase. *)
Theorem survival_curve_steps_down_from_initial_pop_size
  (co co' : CohortOutcomes) (initial_pop_size : Z) :
  calculate_cohort_outcomes co initial_pop_size = (co', None) ->
  exists path changes,
    nLivingPatients co' = Some path
    /\ survival_curve path = (0%Q, initial_pop_size) :: changes
    /\ Permutation (map fst changes) (survivalTimes co)
    /\ Sorted Qle (map fst changes)
    /\ steps_down initial_pop_size (map snd changes)
    /\ (forall k, (k <= length (survivalTimes co))%nat ->
          nth k (map snd (survival_curve path)) 0 = initial_pop_size - Z.of_nat k)
    /\ Sorted Z.ge (map snd (survival_curve path)).
Proof.
  unfold calculate_cohort_outcomes.
  destruct (true_div (sumQ (survivalTimes co)) (len (survivalTimes co)));
    [|discriminate].
  cbn [nTotalStrokes survivalTimes meanSurvivalTime].
  destruct (true_div (inject_Z (sumZ (nTotalStrokes co))) (len (nTotalStrokes co)));
    [|discriminate].
  intro E. inversion E; subst co'; clear E. cbn [nLivingPatients].
  set (sorted := sort_changes (combine (survivalTimes co)
                                 (repeat (-1) (length (survivalTimes co))))).
  assert (P : Permutation sorted (map (fun a => (a, -1)) (survivalTimes co))).
  { subst sorted. rewrite combine_repeat. apply sort_changes_perm. }
  assert (F : Forall (fun c : Q * Z => snd c = -1) sorted).
  { apply (Permutation_Forall (Permutation_sym P)).
    apply Forall_map, Forall_forall. reflexivity. }
  assert (D : steps_down initial_pop_size
                (map snd (accumulate initial_pop_size sorted))).
  { apply accumulate_steps_down, F. }
  assert (T : Permutation (map fst (accumulate initial_pop_size sorted))
                (survivalTimes co)).
  { rewrite accumulate_times.
    apply perm_trans with (map fst (map (fun a : Q => (a, -1)) (survivalTimes co))).
    - apply Permutation_map, P.
    - rewrite map_map. cbn [fst]. rewrite map_id. apply Permutation_refl. }
  eexists. exists (accumulate initial_pop_size sorted).
  split; [reflexivity|]. split; [reflexivity|]. split; [exact T|].
  split. { rewrite accumulate_times. apply sorted_times, sort_changes_sorted. }
  split; [exact D|]. split.
  - intros k Hk. unfold survival_curve. cbn [initial_size times_of_changes increments].
    fold sorted. cbn [map snd]. apply steps_down_nth; [exact D|].
    rewrite length_map, <- (length_map fst), (Permutation_length T). exact Hk.
  - unfold survival_curve. cbn [initial_size times_of_changes increments].
    fold sorted. cbn [map snd]. apply steps_down_nonincreasing, D.
Qed.

(** ** The cohort loop and its arguments *)

Lemma raised_only_ValueError (m : RateMatrix) (L : Q) (p : Patient) (n : nat) :
  raised (run m L n (sim_start p)) <> Some ZeroDivisionError
  /\ raised (run m L n (sim_start p)) <> Some InvalidArgumentError.
Proof.
  apply run_invariant with
    (P := fun st => raised st <> Some ZeroDivisionError
                    /\ raised st <> Some InvalidArgumentError).
  - intros st I _. destruct (loop_body_cases m L st); cbn [raised];
      split; discriminate.
  - cbn. split; discriminate.
Qed.

Lemma simulate_patients_exn (fuel : nat) (c : Cohort) (L : Q) (idxs : list Z) :
  forall co co' e,
    simulate_patients fuel c L idxs co = Some (co', Some e) ->
    e <> ZeroDivisionError /\ e <> InvalidArgumentError.
Proof.
  induction idxs as [|i idxs IH]; intros co co' e H; cbn [simulate_patients] in H.
  - discriminate.
  - unfold simulate in H. cbn [transRateMatrix Patient_init] in H.
    match type of H with
    | context [halted ?st] => destruct (halted st); [|discriminate];
                              pose proof (raised_only_ValueError
                                (Cohort_transRateMatrix c) L
                                (Patient_init (Cohort_id c * popSize c + i)
                                   (Cohort_transRateMatrix c)) fuel) as [R1 R2];
                              destruct (raised st) as [e'|]
    end.
    + inversion H; subst. split; congruence.
    + eapply IH; eassumption.
Qed.

Lemma calculate_exn (co co' : CohortOutcomes) (n : Z) (e : exn) :
  calculate_cohort_outcomes co n = (co', Some e) -> e = ZeroDivisionError.
Proof.
  unfold calculate_cohort_outcomes.
  destruct (true_div _ _); [|intro H; inversion H; reflexivity].
  destruct (true_div _ _); intro H; inversion H; reflexivity.
Qed.

(** A newly created patient simulated over a horizon that is not positive
    leaves the loop in its first turn, as it was created. *)
Lemma simulate_nonpositive_horizon (fuel : nat) (id : Z) (m : RateMatrix) (L : Q) :
  holding_times_positive -> (L <= 0)%Q -> (1 <= fuel)%nat ->
  simulate fuel (Patient_init id m) L = Some (Patient_init id m, None).
Proof.
  intros Hp HL Hf.
  assert (H1 : halted (run m L 1 (sim_start (Patient_init id m))) = true
               /\ monitor (run m L 1 (sim_start (Patient_init id m)))
                  = PatientStateMonitor_init
               /\ raised (run m L 1 (sim_start (Patient_init id m))) = None).
  { change (run m L 1 (sim_start (Patient_init id m)))
      with (loop_body m L (sim_start (Patient_init id m))).
    destruct (loop_body_cases m L (sim_start (Patient_init id m)))
      as [j r' E|dt j r' E G|dt j r' s E G C|dt j r' E G C];
      cbn [sim_start t monitor raised stateMonitor Patient_init] in *.
    - repeat split.
    - repeat split. apply update_WELL_init.
    - pose proof (Hp _ _ _ _ _ _ E). lra.
    - pose proof (Hp _ _ _ _ _ _ E). lra. }
  destruct H1 as (Hh & Hm & Hr).
  pose proof (halted_simulate (Patient_init id m) L 1 fuel) as S.
  cbn [transRateMatrix Patient_init Patient_id] in S.
  rewrite (S Hh Hf), Hm, Hr. reflexivity.
Qed.

Lemma simulate_patients_nonpositive_horizon
  (fuel : nat) (c : Cohort) (L : Q) (idxs : list Z) :
  holding_times_positive -> (L <= 0)%Q -> (1 <= fuel)%nat ->
  forall co,
    simulate_patients fuel c L idxs co
    = Some ({| survivalTimes := survivalTimes co;
               nTotalStrokes := nTotalStrokes co ++ repeat 0 (length idxs);
               nLivingPatients := nLivingPatients co;
               meanSurvivalTime := meanSurvivalTime co;
               meanNumOfStrokes := meanNumOfStrokes co |}, None).
Proof.
  intros Hp HL Hf. induction idxs as [|i idxs IH]; intro co;
    cbn [simulate_patients length repeat].
  - rewrite app_nil_r. destruct co; reflexivity.
  - rewrite simulate_nonpositive_horizon by assumption.
    rewrite IH. unfold extract_outcome.
    cbn [stateMonitor Patient_init survivalTime PatientStateMonitor_init nStrokes
         survivalTimes nTotalStrokes nLivingPatients meanSurvivalTime meanNumOfStrokes].
    rewrite <- app_assoc. reflexivity.
Qed.

Lemma range_nonpositive (n : Z) : n <= 0 -> range n = [].
Proof.
  intro H. unfold range. replace (Z.to_nat n) with O by lia. reflexivity.
Qed.

Lemma length_range (n : Z) : length (range n) = Z.to_nat n.
Proof. unfold range. rewrite length_map, length_seq. reflexivity. Qed.

Lemma never_InvalidArgumentError (fuel : nat) (c c' : Cohort) (L : Q) :
  Cohort_simulate fuel c L <> Some (c', Some InvalidArgumentError).
Proof.
  intro H. unfold Cohort_simulate in H.
  destruct (simulate_patients fuel c L (range (popSize c)) (cohortOutcomes c))
    as [[co [e|]]|] eqn:E; [| |discriminate].
  - apply simulate_patients_exn in E. inversion H; subst. tauto.
  - destruct (calculate_cohort_outcomes co (popSize c)) as [co' r] eqn:K.
    inversion H; subst. apply calculate_exn in K. discriminate.
Qed.

(** C5, as the code has it: [Cohort.simulate] checks neither argument and
    never raises [InvalidArgumentError].  On a newly created cohort, a
    population size that is not positive makes it simulate no patient and fail
    with the [ZeroDivisionError] of [calculate_cohort_outcomes]; with a
    positive population size, a [sim_length] that is not positive and positive
    holding times, every patient is simulated and recorded with 0 strokes and
    no survival time, and the call then fails with the same
    [ZeroDivisionError]. *)
Theorem Cohort_simulate_checks_no_argument
  (fuel : nat) (id pop_size : Z) (m : RateMatrix) (sim_length : Q) :
  let c := Cohort_init id pop_size m in
  (forall c0 c', Cohort_simulate fuel c0 sim_length <> Some (c', Some InvalidArgumentError))
  /\ (pop_size <= 0 ->
      Cohort_simulate fuel c sim_length = Some (c, Some ZeroDivisionError))
  /\ (0 < pop_size -> (sim_length <= 0)%Q -> holding_times_positive ->
      (1 <= fuel)%nat ->
      Cohort_simulate fuel c sim_length
      = Some (set_cohortOutcomes c
                {| survivalTimes := [];
                   nTotalStrokes := repeat 0 (Z.to_nat pop_size);
                   nLivingPatients := None;
                   meanSurvivalTime := None;
                   meanNumOfStrokes := None |},
              Some ZeroDivisionError)).
Proof.
  intro c. split; [|split].
  - intros c0 c'. apply never_InvalidArgumentError.
  - intro Hp. unfold Cohort_simulate. subst c. cbn [popSize Cohort_init cohortOutcomes].
    rewrite (range_nonpositive _ Hp). reflexivity.
  - intros Hp HL Hh Hf. unfold Cohort_simulate. subst c.
    cbn [popSize Cohort_init cohortOutcomes].
    rewrite simulate_patients_nonpositive_horizon by assumption.
    rewrite length_range. reflexivity.
Qed.

End Facts.

(** ** The run depends on the random source through one stream only *)

Section Streams.

Context {HS : HealthStatesEnum} (GS1 GS2 : GillespieSampler).

Variable m : RateMatrix.
Variable R : @RandomState GS1 -> @RandomState GS2 -> Prop.

Hypothesis same_draws :
  forall i r1 r2,
    R r1 r2 ->
    fst (@get_next_state GS1 m i r1) = fst (@get_next_state GS2 m i r2)
    /\ R (snd (@get_next_state GS1 m i r1)) (snd (@get_next_state GS2 m i r2)).

Lemma loop_body_agree (L : Q) (st1 : @SimState HS GS1) (st2 : @SimState HS GS2) :
  view st1 = view st2 -> R (rng st1) (rng st2) ->
  view (loop_body m L st1) = view (loop_body m L st2)
  /\ R (rng (loop_body m L st1)) (rng (loop_body m L st2)).
Proof.
  destruct st1 as [t1 s1 r1 m1 u1 e1], st2 as [t2 s2 r2 m2 u2 e2].
  unfold view. cbn [t if_stop monitor updates raised rng].
  intros V HR. inversion V; subst; clear V.
  destruct (same_draws (value (currentState m2)) r1 r2 HR) as [Hf Hs].
  unfold loop_body. cbn [t if_stop monitor updates raised rng].
  destruct (@get_next_state GS1 m (value (currentState m2)) r1) as [[dt1 j1] r1'].
  destruct (@get_next_state GS2 m (value (currentState m2)) r2) as [[dt2 j2] r2'].
  cbn [fst snd] in Hf, Hs. inversion Hf; subst; clear Hf.
  destruct dt2 as [dt|]; [|split; [reflexivity|exact Hs]].
  destruct (Qgtb (dt + t2) L).
  - destruct (HealthStates_call (value (currentState m2)));
      split; try reflexivity; exact Hs.
  - destruct (HealthStates_call j2); split; try reflexivity; exact Hs.
Qed.

Lemma view_fields (GS : GillespieSampler) (GS' : GillespieSampler)
  (st : @SimState HS GS) (st' : @SimState HS GS') :
  view st = view st' ->
  t st = t st' /\ if_stop st = if_stop st' /\ monitor st = monitor st'
  /\ updates st = updates st' /\ raised st = raised st'.
Proof.
  unfold view. intro V. inversion V. repeat split; reflexivity.
Qed.

Lemma halted_view (GS : GillespieSampler) (GS' : GillespieSampler)
  (st : @SimState HS GS) (st' : @SimState HS GS') :
  view st = view st' -> halted st = halted st'.
Proof.
  intro V. destruct (view_fields _ _ _ _ V) as (_ & Hs & _ & _ & He).
  unfold halted. rewrite Hs, He. reflexivity.
Qed.

Lemma run_agree (L : Q) (n : nat) (st1 : @SimState HS GS1) (st2 : @SimState HS GS2) :
  view st1 = view st2 -> R (rng st1) (rng st2) ->
  view (run m L n st1) = view (run m L n st2)
  /\ R (rng (run m L n st1)) (rng (run m L n st2)).
Proof.
  intros V HR. induction n as [|n [IV IR]]; [split; assumption|].
  rewrite !run_S. unfold step. rewrite (halted_view _ _ _ _ IV).
  destruct (halted (run m L n st2)); [split; assumption|].
  apply loop_body_agree; assumption.
Qed.

End Streams.

Section SameStream.

Context {HS : HealthStatesEnum}.

Lemma simulate_agree (GS1 GS2 : GillespieSampler) (p : Patient) (L : Q) (n : nat) :
  streams_agree GS1 GS2 (transRateMatrix p) (Patient_id p) ->
  view (run (GS := GS1) (transRateMatrix p) L n (sim_start p))
  = view (run (GS := GS2) (transRateMatrix p) L n (sim_start p))
  /\ simulate (GS := GS1) n p L = simulate (GS := GS2) n p L.
Proof.
  intros (R & R0 & RS).
  destruct (run_agree GS1 GS2 (transRateMatrix p) R RS L n
              (sim_start (GS := GS1) p) (sim_start (GS := GS2) p)
              eq_refl R0) as [V _].
  split; [exact V|]. unfold simulate.
  rewrite (halted_view GS1 GS2 _ _ V).
  destruct (view_fields GS1 GS2 _ _ V) as (_ & _ & Hm & _ & He).
  rewrite Hm, He. reflexivity.
Qed.

Lemma simulate_patients_agree (GS1 GS2 : GillespieSampler)
  (fuel : nat) (c : Cohort) (L : Q) (idxs : list Z) :
  (forall i, In i idxs ->
     streams_agree GS1 GS2 (Cohort_transRateMatrix c) (Cohort_id c * popSize c + i)) ->
  forall co,
    simulate_patients (GS := GS1) fuel c L idxs co
    = simulate_patients (GS := GS2) fuel c L idxs co.
Proof.
  induction idxs as [|i idxs IH]; intros A co; [reflexivity|].
  cbn [simulate_patients].
  destruct (simulate_agree GS1 GS2
              (Patient_init (Cohort_id c * popSize c + i) (Cohort_transRateMatrix c))
              L fuel (A i (or_introl eq_refl))) as [_ E].
  rewrite E.
  destruct (simulate (GS := GS2) fuel _ L) as [[p' [e|]]|]; try reflexivity.
  apply IH. intros k Hk. apply A. right. exact Hk.
Qed.

Lemma streams_agree_refl (GS : GillespieSampler) (m : RateMatrix) (seed : Z) :
  streams_agree GS GS m seed.
Proof.
  exists eq. split; [reflexivity|]. intros i r1 r2 ->. split; reflexivity.
Qed.

(** C8: the result of [Patient.simulate] depends on the random source only
    through the stream seeded with the patient's id.  Two patients created
    with the same id and matrix, each simulated with a random source of its
    own, go through the same times, monitor states, trajectory and exception
    turn after turn, and [simulate] returns the same result, provided the two
    sources give the same draws on the stream seeded with that id, whatever
    they do for other seeds; with one and the same source this holds
    outright.  A cohort's loop likewise depends on the source only through
    the streams seeded with its own patients' ids, and what each patient adds
    to the stroke counts and survival times is what [simulate] gives for a
    patient of that id alone, whatever the other indices and their order. *)
Theorem simulate_depends_only_on_stream_seeded_by_id
  (GS1 GS2 : GillespieSampler) :
  (forall (id : Z) (m : RateMatrix) (sim_length : Q) (n : nat),
     streams_agree GS1 GS2 m id ->
     view (run (GS := GS1) m sim_length n (sim_start (Patient_init id m)))
     = view (run (GS := GS2) m sim_length n (sim_start (Patient_init id m)))
     /\ simulate (GS := GS1) n (Patient_init id m) sim_length
        = simulate (GS := GS2) n (Patient_init id m) sim_length)
  /\ (forall (id : Z) (m : RateMatrix), streams_agree GS1 GS1 m id)
  /\ (forall (fuel : nat) (c : Cohort) (sim_length : Q) (idxs : list Z)
             (co : CohortOutcomes),
        (forall i, In i idxs ->
           streams_agree GS1 GS2 (Cohort_transRateMatrix c)
             (Cohort_id c * popSize c + i)) ->
        simulate_patients (GS := GS1) fuel c sim_length idxs co
        = simulate_patients (GS := GS2) fuel c sim_length idxs co)
  /\ (forall (fuel : nat) (c : Cohort) (sim_length : Q) (idxs : list Z)
             (co co' : CohortOutcomes),
        simulate_patients (GS := GS1) fuel c sim_length idxs co = Some (co', None) ->
        nTotalStrokes co'
        = nTotalStrokes co
            ++ map (fun i => strokes_of
                      (simulate (GS := GS1) fuel
                         (Patient_init (Cohort_id c * popSize c + i)
                            (Cohort_transRateMatrix c)) sim_length)) idxs
        /\ survivalTimes co'
           = survivalTimes co
               ++ flat_map (fun i => survival_of
                         (simulate (GS := GS1) fuel
                            (Patient_init (Cohort_id c * popSize c + i)
                               (Cohort_transRateMatrix c)) sim_length)) idxs).
Proof.
  split; [|split; [|split]].
  - intros id m L n A.
    exact (simulate_agree GS1 GS2 (Patient_init id m) L n A).
  - intros id m. apply streams_agree_refl.
  - intros fuel c L idxs co A. apply simulate_patients_agree, A.
  - intros fuel c L idxs co co'. apply simulate_patients_outcomes.
Qed.

End SameStream.

(** * The properties on concrete runs *)

(** ** Stroke counting at the horizon *)

(** C1 (defect of the code): on [relapsing_matrix] with horizon 3/2 the
    patient has its one stroke at time 1 and is still in STROKE when the next
    holding time overshoots the horizon.  The call of [update] made for the
    horizon passes STROKE again, so [simulate] returns [nStrokes = 2] although
    a single stroke-type transition was applied. *)
Theorem nStrokes_counts_the_horizon_call_as_a_stroke :
  let p := Patient_init (HS := HS4) 0 relapsing_matrix in
  let st := run (GS := relapsing_sampler) relapsing_matrix (3 # 2) 2 (sim_start p) in
  simulate (GS := relapsing_sampler) 2 p (3 # 2)
  = Some ({| Patient_id := 0;
             transRateMatrix := relapsing_matrix;
             stateMonitor := {| currentState := Stroke;
                                survivalTime := None;
                                nStrokes := 2 |} |}, None)
  /\ updates st
     = [ {| call_time := 1; call_state := Stroke; sampled := true |};
         {| call_time := 3 # 2; call_state := Stroke; sampled := false |} ]
  /\ count_applied_strokes (updates st) = 1
  /\ nStrokes (monitor st) = 2.
Proof.
  vm_compute. repeat split.
Qed.

(** ** Examples of the horizon and survival-time theorems *)

Lemma horizon_overshoot_keeps_current_state_witness :
  let st := sim_start (GS := relapsing_sampler)
              (Patient_init (HS := HS4) 0 relapsing_matrix) in
  step relapsing_matrix (1 # 2) st
  = Build_SimState (GS := relapsing_sampler)
      (1 # 2) true (0, 1%nat) PatientStateMonitor_init
      [{| call_time := 1 # 2; call_state := Well; sampled := false |}] None
  /\ forall k, run relapsing_matrix (1 # 2) k (step relapsing_matrix (1 # 2) st)
               = step relapsing_matrix (1 # 2) st.
Proof.
  intro st.
  apply (@horizon_overshoot_keeps_current_state HS4 relapsing_sampler
           relapsing_matrix (1 # 2) st 1 1 (rng (step relapsing_matrix (1 # 2) st)));
    reflexivity.
Defined.

Lemma stroke_matrix_deaths_absorb :
  absorbing (GS := stroke_sampler) stroke_matrix (value STROKE_DEAD)
  /\ absorbing (GS := stroke_sampler) stroke_matrix (value NATURAL_DEATH).
Proof. split; intro r; reflexivity. Qed.

Lemma survivalTime_is_time_of_death_witness :
  let st := run (GS := stroke_sampler) stroke_matrix 10 5
              (sim_start (Patient_init (HS := HS4) 7 stroke_matrix)) in
  currentState (monitor st) = StrokeDead
  /\ survivalTime (monitor st) = Some 3%Q
  /\ exists pre tm,
       updates st
       = pre ++ [{| call_time := tm; call_state := StrokeDead; sampled := true |}]
       /\ no_death_call pre
       /\ survivalTime (monitor st) = Some tm
       /\ (tm <= 10)%Q.
Proof.
  intro st.
  split; [reflexivity|]. split; [reflexivity|].
  exact (proj2 (@survivalTime_is_time_of_death HS4 stroke_sampler 7 stroke_matrix 10 5
                  (proj1 stroke_matrix_deaths_absorb)
                  (proj2 stroke_matrix_deaths_absorb))).
Defined.

(** ** The monitor when a death-type state is not absorbing *)

(** C6 as stated fails when a death-type state has an outgoing rate: on
    [leaky_matrix] the patient enters NATURAL_DEATH at time 1, which sets
    [survivalTime = 1], and leaves it for STROKE_DEAD at time 2, which
    overwrites it with 2: the survival time set after one turn is not kept by
    the second. *)
Lemma survivalTime_overwritten_when_death_is_left :
  ~ monitor_invariant (GS := leaky_sampler) 5
      (Patient_init (HS := HS4) 0 leaky_matrix).
Proof.
  intro H. destruct (H 1%nat) as [K _].
  specialize (K 1%Q eq_refl). vm_compute in K. discriminate K.
Qed.

Lemma monitor_invariant_when_deaths_absorb_witness :
  monitor_invariant (GS := stroke_sampler) 10
    (Patient_init (HS := HS4) 7 stroke_matrix).
Proof.
  apply (@monitor_invariant_when_deaths_absorb HS4 stroke_sampler 7 stroke_matrix 10).
  - intro r. reflexivity.
  - intro r. reflexivity.
Defined.

(** ** A run that never leaves the loop *)

Lemma pow2_S (n : nat) : pow2 (S n) = xO (pow2 n).
Proof. reflexivity. Qed.

Lemma half_pow2 (n : nat) : (1 # pow2 n == 2 * (1 # pow2 (S n)))%Q.
Proof.
  rewrite pow2_S. unfold Qeq, Qmult. cbn [Qnum Qden].
  rewrite Pos2Z.inj_mul, Pos2Z.inj_xO. lia.
Qed.

Lemma pow2_positive (n : nat) : (0 < 1 # pow2 n)%Q.
Proof. reflexivity. Qed.

Lemma zeno_start :
  zeno_state 0 (sim_start (Patient_init 0 relapsing_matrix)).
Proof.
  unfold zeno_state. cbn. repeat split.
Qed.

Lemma zeno_turn (n : nat) (st : @SimState HS4 zeno_sampler) :
  zeno_state n st -> zeno_state (S n) (loop_body relapsing_matrix 1 st).
Proof.
  intros (Hs & Hr & Hg & Hc & Ht).
  pose proof (half_pow2 n) as Hh. pose proof (pow2_positive (S n)) as Hp.
  assert (E : get_next_state relapsing_matrix (value (currentState (monitor st))) (rng st)
              = (Some (1 # pow2 (S n)), if Nat.even n then 1 else 0, (0, S n))).
  { rewrite Hc, Hg. destruct (Nat.even n) eqn:En;
      unfold get_next_state, zeno_sampler, TableSampler, zeno_draws;
      cbn [fst snd]; rewrite En; reflexivity. }
  destruct (loop_body_cases relapsing_matrix 1 st)
    as [j r' E'|dt j r' E' G|dt j r' s E' G C|dt j r' E' G C];
    rewrite E in E'; inversion E'; subst dt j r'; clear E' E;
    unfold zeno_state; cbn [if_stop raised rng monitor t];
    change ((pow2 n)~0)%positive with (pow2 (S n)) in *;
    set (h := (1 # pow2 (S n))%Q) in *; set (g := (1 # pow2 n)%Q) in *;
    clearbody h g.
  - exfalso. lra.
  - rewrite currentState_update, Nat.even_succ, <- Nat.negb_even.
    repeat split; try assumption.
    + destruct (Nat.even n); cbn in C; inversion C; reflexivity.
    + lra.
  - exfalso. destruct (Nat.even n); discriminate C.
Qed.

Lemma zeno_run (n : nat) :
  zeno_state n (run relapsing_matrix 1 n (sim_start (Patient_init 0 relapsing_matrix))).
Proof.
  induction n as [|n IH]; [exact zeno_start|].
  rewrite run_S, step_running.
  - apply zeno_turn, IH.
  - destruct IH as (Hs & Hr & _). unfold halted. rewrite Hs, Hr. reflexivity.
Qed.

(** C7 as stated fails: with the positive holding times 1/2, 1/4, 1/8, ...
    and horizon 1, every turn advances [t], [t] stays below the horizon, no state is absorbing, and
    the loop is never left. *)
Lemma simulate_never_stops_on_shrinking_holding_times :
  ~ terminates (GS := zeno_sampler) 1 (Patient_init (HS := HS4) 0 relapsing_matrix).
Proof.
  intros [n H]. cbn [transRateMatrix Patient_init] in H.
  destruct (zeno_run n) as (Hs & Hr & _).
  unfold halted in H. rewrite Hs, Hr in H. discriminate H.
Qed.

Lemma relapsing_holding_times :
  holding_times_at_least (GS := relapsing_sampler) 1.
Proof.
  intros m i r dt j r'.
  unfold get_next_state, relapsing_sampler, TableSampler, relapsing_draws.
  cbn [fst snd]. destruct (Qgtb _ _); intro E; inversion E. apply Qle_refl.
Qed.

Lemma relapsing_holding_times_of_matrix :
  holding_times_of (GS := relapsing_sampler) relapsing_matrix 1.
Proof.
  intros i r dt j r'. apply relapsing_holding_times.
Qed.

Lemma simulate_turns_and_conditional_termination_witness :
  halted (run (GS := relapsing_sampler) relapsing_matrix (7 # 2) 4
            (sim_start (Patient_init (HS := HS4) 0 relapsing_matrix))) = true
  /\ simulate (GS := relapsing_sampler) 4
       (Patient_init (HS := HS4) 0 relapsing_matrix) (7 # 2) <> None.
Proof.
  apply (proj2 (proj2 (@simulate_turns_and_conditional_termination
                         HS4 relapsing_sampler (7 # 2)
                         (Patient_init 0 relapsing_matrix))) 1%Q).
  - reflexivity.
  - apply advances_by_holding_times. exact relapsing_holding_times_of_matrix.
  - lia.
  - reflexivity.
Defined.

Lemma other_sampler_agrees (m : RateMatrix) (seed : Z) :
  (seed =? 6) || (seed =? 7) = true ->
  streams_agree stroke_sampler other_sampler m seed.
Proof.
  intro H.
  exists (fun (r1 r2 : Z * nat) => r1 = r2 /\ (fst r1 =? 6) || (fst r1 =? 7) = true).
  split; [split; [reflexivity|exact H]|].
  intros i r1 r2 [<- F].
  unfold get_next_state, stroke_sampler, other_sampler, TableSampler, other_draws.
  rewrite F. destruct (Qgtb _ _); cbn [fst snd]; repeat split; assumption.
Qed.

Lemma simulate_depends_only_on_stream_seeded_by_id_witness :
  simulate (GS := stroke_sampler) 5 (Patient_init (HS := HS4) 7 stroke_matrix) 10
  = simulate (GS := other_sampler) 5 (Patient_init (HS := HS4) 7 stroke_matrix) 10
  /\ simulate (GS := stroke_sampler) 5 (Patient_init (HS := HS4) 1 stroke_matrix) 10
     <> simulate (GS := other_sampler) 5 (Patient_init (HS := HS4) 1 stroke_matrix) 10
  /\ simulate_patients (GS := stroke_sampler) 5 (Cohort_init 3 2 stroke_matrix) 10
       [1; 0] CohortOutcomes_init
     = simulate_patients (GS := other_sampler) 5 (Cohort_init 3 2 stroke_matrix) 10
         [1; 0] CohortOutcomes_init.
Proof.
  split; [|split].
  - apply (proj1 (@simulate_depends_only_on_stream_seeded_by_id
                    HS4 stroke_sampler other_sampler) 7 stroke_matrix 10%Q 5%nat).
    apply other_sampler_agrees. reflexivity.
  - vm_compute. discriminate.
  - apply (proj1 (proj2 (proj2 (@simulate_depends_only_on_stream_seeded_by_id
                                  HS4 stroke_sampler other_sampler)))).
    intros i [<-|[<-|[]]]; apply other_sampler_agrees; reflexivity.
Defined.

Lemma meanSurvivalTime_is_mean_or_ZeroDivisionError_witness :
  let co := {| survivalTimes := [3; 1]%Q; nTotalStrokes := [1; 0; 2];
               nLivingPatients := None; meanSurvivalTime := None;
               meanNumOfStrokes := None |} in
  calculate_cohort_outcomes CohortOutcomes_init 3
  = (CohortOutcomes_init, Some ZeroDivisionError)
  /\ meanSurvivalTime (fst (calculate_cohort_outcomes co 3))
     = Some (sumQ [3; 1] / inject_Z 2)%Q.
Proof.
  intro co. split.
  - apply (proj1 (meanSurvivalTime_is_mean_or_ZeroDivisionError
                    CohortOutcomes_init 3)).
    reflexivity.
  - apply (proj2 (meanSurvivalTime_is_mean_or_ZeroDivisionError co 3)).
    discriminate.
Defined.

Lemma empty_survivalTimes_leaves_outcomes_unchanged_witness :
  let alive := Patient_init (HS := HS4) 0 relapsing_matrix in
  let co := fold_left extract_outcome [alive; alive] CohortOutcomes_init in
  nTotalStrokes co = [0; 0]
  /\ calculate_cohort_outcomes co 2 = (co, Some ZeroDivisionError)
  /\ meanSurvivalTime co = None
  /\ meanNumOfStrokes co = None
  /\ nLivingPatients co = None.
Proof.
  intros alive co. split; [reflexivity|].
  apply (@empty_survivalTimes_leaves_outcomes_unchanged HS4 [alive; alive] 2).
  reflexivity.
Defined.

Lemma survival_curve_steps_down_from_initial_pop_size_witness :
  let co := {| survivalTimes := [3; 1; 2]%Q; nTotalStrokes := [1; 0; 2];
               nLivingPatients := None; meanSurvivalTime := None;
               meanNumOfStrokes := None |} in
  let co' := fst (calculate_cohort_outcomes co 3) in
  option_map survival_curve (nLivingPatients co')
  = Some [(0%Q, 3); (1%Q, 2); (2%Q, 1); (3%Q, 0)]
  /\ exists path changes,
       nLivingPatients co' = Some path
       /\ survival_curve path = (0%Q, 3) :: changes
       /\ Permutation (map fst changes) [3; 1; 2]%Q
       /\ Sorted Qle (map fst changes)
       /\ steps_down 3 (map snd changes)
       /\ (forall k, (k <= 3)%nat ->
             nth k (map snd (survival_curve path)) 0 = 3 - Z.of_nat k)
       /\ Sorted Z.ge (map snd (survival_curve path)).
Proof.
  intros co co'. split; [reflexivity|].
  apply (survival_curve_steps_down_from_initial_pop_size co co' 3).
  reflexivity.
Defined.

(** ** The arguments of the cohort loop *)

(** C5 as stated fails.  A horizon of -1 with two patients, and a
    population of 0: in both cases
    the call is not refused with [InvalidArgumentError]; with the negative
    horizon the two patients are simulated and recorded before
    [calculate_cohort_outcomes] raises [ZeroDivisionError]. *)
Lemma Cohort_simulate_accepts_nonpositive_arguments :
  let c := Cohort_init 0 2 relapsing_matrix in
  let c0 := Cohort_init 0 0 relapsing_matrix in
  (-1 <= 0)%Q /\ 0 <= 0
  /\ Cohort_simulate (GS := relapsing_sampler) 1 c (-1)
     = Some (set_cohortOutcomes c
               {| survivalTimes := []; nTotalStrokes := [0; 0];
                  nLivingPatients := None; meanSurvivalTime := None;
                  meanNumOfStrokes := None |},
             Some ZeroDivisionError)
  /\ (forall fuel, ~ rejects_arguments (GS := relapsing_sampler) fuel c (-1))
  /\ (forall fuel, ~ rejects_arguments (GS := relapsing_sampler) fuel c0 10).
Proof.
  intros c c0. split; [discriminate|]. split; [lia|]. split; [reflexivity|].
  split; intros fuel H; exact (never_InvalidArgumentError _ _ _ _ H).
Qed.

Lemma relapsing_holding_times_positive :
  holding_times_positive (GS := relapsing_sampler).
Proof.
  intros m i r dt j r' E.
  apply Qlt_le_trans with 1%Q; [reflexivity|].
  exact (relapsing_holding_times m i r dt j r' E).
Qed.

Lemma Cohort_simulate_checks_no_argument_witness :
  Cohort_simulate (GS := relapsing_sampler) 4
    (Cohort_init 0 (-3) relapsing_matrix) (-1)
  = Some (Cohort_init 0 (-3) relapsing_matrix, Some ZeroDivisionError)
  /\ Cohort_simulate (GS := relapsing_sampler) 4
       (Cohort_init 0 2 relapsing_matrix) (-1)
     = Some (set_cohortOutcomes (Cohort_init 0 2 relapsing_matrix)
               {| survivalTimes := []; nTotalStrokes := [0; 0];
                  nLivingPatients := None; meanSurvivalTime := None;
                  meanNumOfStrokes := None |},
             Some ZeroDivisionError).
Proof.
  split.
  - apply (proj1 (proj2 (@Cohort_simulate_checks_no_argument HS4 relapsing_sampler
                           4 0 (-3) relapsing_matrix (-1)))).
    lia.
  - apply (proj2 (proj2 (@Cohort_simulate_checks_no_argument HS4 relapsing_sampler
                           4 0 2 relapsing_matrix (-1)))).
    + lia.
    + discriminate.
    + exact relapsing_holding_times_positive.
    + lia.
Defined.

(** * Further properties of the run, the monitor and the aggregation *)

Section Trajectory.

Context {HS : HealthStatesEnum} {GS : GillespieSampler}.

(** ** The monitor is the replay of the trajectory *)

Lemma replay_app (mon : PatientStateMonitor) (l : list UpdateCall) (u : UpdateCall) :
  replay mon (l ++ [u]) = update (replay mon l) (call_time u) (call_state u).
Proof. unfold replay. rewrite fold_left_app. reflexivity. Qed.

Lemma last_death_time_app (d : option Q) (l : list UpdateCall) (u : UpdateCall) :
  last_death_time d (l ++ [u])
  = if is_death (call_state u) then Some (call_time u) else last_death_time d l.
Proof. unfold last_death_time. rewrite fold_left_app. reflexivity. Qed.

Lemma last_app {A : Type} (l : list A) (x d : A) : last (l ++ [x]) d = x.
Proof.
  induction l as [|a l IH]; [reflexivity|].
  cbn [app]. destruct (l ++ [x]) eqn:E.
  - destruct l; discriminate E.
  - cbn [last]. exact IH.
Qed.

Lemma monitor_is_replay (m : RateMatrix) (L : Q) (p : Patient) (n : nat) :
  monitor (run m L n (sim_start p))
  = replay (stateMonitor p) (updates (run m L n (sim_start p))).
Proof.
  apply run_invariant with
    (P := fun st => monitor st = replay (stateMonitor p) (updates st)).
  - intros st I _.
    destruct (loop_body_cases m L st); cbn [monitor updates];
      rewrite ?replay_app; cbn [call_time call_state]; rewrite <- ?I;
      try reflexivity; exact I.
  - reflexivity.
Qed.

Lemma replay_fields (mon : PatientStateMonitor) (l : list UpdateCall) :
  currentState (replay mon l) = last (map call_state l) (currentState mon)
  /\ survivalTime (replay mon l) = last_death_time (survivalTime mon) l
  /\ nStrokes (replay mon l) = nStrokes mon + count_stroke_calls l.
Proof.
  induction l as [|u l IH] using rev_ind.
  - cbn. repeat split. unfold count_stroke_calls, len. cbn. lia.
  - destruct IH as (IH1 & IH2 & IH3).
    rewrite replay_app, map_app. cbn [map].
    rewrite last_app, last_death_time_app, count_stroke_calls_app.
    rewrite currentState_update, survivalTime_update, nStrokes_update, IH2, IH3.
    repeat split. destruct (is_stroke (call_state u)); lia.
Qed.

(** X1: at every turn of a run the monitor is what the calls of [update]
    recorded so far produce from the patient's initial monitor: the current
    state is the state of the last call, [survivalTime] is the time of the
    last call with a death-type state (so a later death-type call replaces an
    earlier one), and [nStrokes] has grown by the number of calls with a
    stroke-type state. *)
Theorem monitor_replays_trajectory
  (m : RateMatrix) (sim_length : Q) (p : Patient) (n : nat) :
  let st := run m sim_length n (sim_start p) in
  monitor st = replay (stateMonitor p) (updates st)
  /\ currentState (monitor st)
     = last (map call_state (updates st)) (currentState (stateMonitor p))
  /\ survivalTime (monitor st)
     = last_death_time (survivalTime (stateMonitor p)) (updates st)
  /\ nStrokes (monitor st)
     = nStrokes (stateMonitor p) + count_stroke_calls (updates st).
Proof.
  intro st. pose proof (monitor_is_replay m sim_length p n) as R. fold st in R.
  split; [exact R|]. rewrite R. apply replay_fields.
Qed.

(** ** The shape of the trajectory *)

Lemma running_shape (s0 : HealthStates) (L : Q) (st : SimState) :
  trajectory_shape s0 L st -> halted st = false ->
  Forall (fun u => sampled u = true) (updates st).
Proof.
  intros [F|pre h U F Sh Th Ch Hs Ht] H; [exact F|].
  unfold halted in H. rewrite Hs in H. discriminate H.
Qed.

Lemma shape_invariant_body (s0 : HealthStates) (m : RateMatrix) (L : Q) (st : SimState) :
  shape_invariant s0 L st -> halted st = false ->
  shape_invariant s0 L (loop_body m L st).
Proof.
  intros (Sh & Cs & Tm) H. pose proof (running_shape s0 L st Sh H) as F.
  destruct (loop_body_cases m L st)
    as [j r' E|dt j r' E G|dt j r' s E G C|dt j r' E G C];
    unfold shape_invariant; cbn [monitor updates].
  - split; [apply shape_sampled; exact F|]. split; assumption.
  - split; [|split].
    + eapply shape_horizon with (pre := updates st); try reflexivity; try exact F.
      cbn [call_state]. exact Cs.
    + rewrite currentState_update, map_app. cbn [map call_state].
      rewrite last_app. reflexivity.
    + apply Forall_app. split; [exact Tm|]. constructor; [|constructor].
      cbn [call_time]. apply Qle_refl.
  - split; [|split].
    + apply shape_sampled. cbn [updates]. apply Forall_app. split; [exact F|].
      constructor; [reflexivity|constructor].
    + rewrite currentState_update, map_app. cbn [map call_state].
      rewrite last_app. reflexivity.
    + apply Forall_app. split; [exact Tm|]. constructor; [|constructor].
      cbn [call_time]. rewrite Qplus_comm. exact G.
  - split; [apply shape_sampled; exact F|]. split; assumption.
Qed.

Lemma shape_invariant_run (m : RateMatrix) (L : Q) (p : Patient) (n : nat) :
  shape_invariant (currentState (stateMonitor p)) L (run m L n (sim_start p)).
Proof.
  apply run_invariant.
  - intros st. apply shape_invariant_body.
  - split; [apply shape_sampled; constructor|]. split; [reflexivity|constructor].
Qed.

(** X2: in every run, for every matrix and horizon, the trajectory consists
    of sampled transitions followed by at most one call made for the horizon;
    that call is the last one, is made at time [sim_length] with the state the
    patient was already in, and the loop is stopped after it; and no call of
    the trajectory has a time beyond [sim_length]. *)
Theorem trajectory_ends_with_at_most_one_horizon_call
  (m : RateMatrix) (sim_length : Q) (p : Patient) (n : nat) :
  let st := run m sim_length n (sim_start p) in
  trajectory_shape (currentState (stateMonitor p)) sim_length st
  /\ Forall (fun u => (call_time u <= sim_length)%Q) (updates st).
Proof.
  intro st. destruct (shape_invariant_run m sim_length p n) as (Sh & _ & Tm).
  split; assumption.
Qed.

(** ** How far [nStrokes] is from the strokes that happened *)

Lemma count_stroke_calls_split (l : list UpdateCall) :
  count_stroke_calls l = count_applied_strokes l + count_horizon_strokes l.
Proof.
  unfold count_stroke_calls, count_applied_strokes, count_horizon_strokes, len.
  induction l as [|u l IH]; [reflexivity|].
  cbn [filter]. destruct (sampled u), (is_stroke (call_state u));
    cbn [negb andb length]; lia.
Qed.

Lemma count_horizon_strokes_sampled (l : list UpdateCall) :
  Forall (fun u => sampled u = true) l -> count_horizon_strokes l = 0.
Proof.
  unfold count_horizon_strokes, len. induction 1 as [|u l Hu F IH]; [reflexivity|].
  cbn [filter]. rewrite Hu. cbn [negb andb]. exact IH.
Qed.

Lemma count_horizon_strokes_app (l : list UpdateCall) (u : UpdateCall) :
  count_horizon_strokes (l ++ [u])
  = count_horizon_strokes l
    + (if negb (sampled u) && is_stroke (call_state u) then 1 else 0).
Proof.
  unfold count_horizon_strokes, len. rewrite filter_app, length_app.
  cbn [filter]. destruct (negb (sampled u) && is_stroke (call_state u));
    cbn [length]; lia.
Qed.

(** X3: at every turn of every run, [nStrokes] has grown by the number of
    sampled transitions into a stroke-type state, or by one more than that;
    it is one more exactly when the trajectory ends with the call made for the
    horizon and the patient was then in a stroke-type state. *)
Theorem nStrokes_is_applied_strokes_plus_horizon_call
  (m : RateMatrix) (sim_length : Q) (p : Patient) (n : nat) :
  let st := run m sim_length n (sim_start p) in
  let surplus := nStrokes (monitor st) - nStrokes (stateMonitor p)
                 - count_applied_strokes (updates st) in
  (surplus = 0 \/ surplus = 1)
  /\ (surplus = 1 <->
      exists pre h, updates st = pre ++ [h]
                    /\ sampled h = false
                    /\ is_stroke (call_state h) = true).
Proof.
  intros st surplus.
  assert (E : surplus = count_horizon_strokes (updates st)).
  { subst surplus. pose proof (nStrokes_counts_every_call m sim_length p n) as K.
    cbv zeta in K. fold st in K. rewrite K, count_stroke_calls_split. lia. }
  destruct (shape_invariant_run m sim_length p n) as (Sh & _ & _). fold st in Sh.
  destruct Sh as [F|pre h U F Sh Th Ch Hs Ht].
  - rewrite (count_horizon_strokes_sampled _ F) in E. split; [left; exact E|].
    split; [lia|]. intros (pre & h & U & Sh & _). exfalso.
    rewrite U in F. apply Forall_app in F. destruct F as [_ F].
    inversion F; subst. congruence.
  - rewrite U, count_horizon_strokes_app, (count_horizon_strokes_sampled _ F), Sh in E.
    cbn [negb andb] in E. split.
    + destruct (is_stroke (call_state h)); [right|left]; lia.
    + split.
      * intro S1. exists pre, h. repeat split; try assumption.
        destruct (is_stroke (call_state h)); [reflexivity|lia].
      * intros (pre' & h' & U' & _ & St). rewrite U in U'.
        apply app_inj_tail in U'. destruct U' as [_ <-]. rewrite St in E. lia.
Qed.

(** ** Call times in order *)

Lemma Sorted_Qle_snoc (l : list Q) (x : Q) :
  Sorted Qle l -> Forall (fun y => (y <= x)%Q) l -> Sorted Qle (l ++ [x]).
Proof.
  induction 1 as [|a l S IH H]; intro F; cbn [app].
  - repeat constructor.
  - inversion F as [|? ? Ha Fl]; subst. constructor; [apply IH, Fl|].
    destruct H; cbn [app]; constructor; assumption.
Qed.

Lemma times_invariant_body (m : RateMatrix) (L : Q) (st : SimState) :
  holding_times_at_least 0 ->
  Sorted Qle (map call_time (updates st))
  /\ Forall (fun u => (0 <= call_time u <= t st)%Q) (updates st)
  /\ (0 <= t st <= L)%Q ->
  let st' := loop_body m L st in
  Sorted Qle (map call_time (updates st'))
  /\ Forall (fun u => (0 <= call_time u <= t st')%Q) (updates st')
  /\ (0 <= t st' <= L)%Q.
Proof.
  intros Hh (So & Fo & Ht) st'. subst st'.
  assert (Fq : forall x, (t st <= x)%Q ->
               Forall (fun y => (y <= x)%Q) (map call_time (updates st))).
  { intros x Hx. apply Forall_map. eapply Forall_impl; [|exact Fo].
    cbn beta. intros u Hu. lra. }
  assert (Fw : forall x, (t st <= x)%Q ->
               Forall (fun u => (0 <= call_time u <= x)%Q) (updates st)).
  { intros x Hx. eapply Forall_impl; [|exact Fo]. cbn beta. intros u Hu. lra. }
  destruct (loop_body_cases m L st)
    as [j r' E|dt j r' E G|dt j r' s E G C|dt j r' E G C];
    cbn [updates t]; try (pose proof (Hh _ _ _ _ _ _ E) as Hdt).
  - repeat split; try assumption; lra.
  - rewrite map_app. cbn [map call_time]. split; [|split].
    + apply Sorted_Qle_snoc; [exact So|]. apply Fq. lra.
    + apply Forall_app. split; [apply Fw; lra|].
      constructor; [cbn [call_time]; lra|constructor].
    + lra.
  - rewrite map_app. cbn [map call_time]. split; [|split].
    + apply Sorted_Qle_snoc; [exact So|]. apply Fq. lra.
    + apply Forall_app. split; [apply Fw; lra|].
      constructor; [cbn [call_time]; lra|constructor].
    + lra.
  - split; [exact So|]. split; [apply Fw; lra|lra].
Qed.

(** X4: when [sim_length] is not negative and no holding time is negative,
    the calls of [update] of a run are made at non-decreasing times, all
    between 0 and [sim_length]. *)
Theorem call_times_nondecreasing_within_horizon
  (m : RateMatrix) (sim_length : Q) (p : Patient) (n : nat) :
  (0 <= sim_length)%Q ->
  holding_times_at_least 0 ->
  let st := run m sim_length n (sim_start p) in
  Sorted Qle (map call_time (updates st))
  /\ Forall (fun u => (0 <= call_time u <= sim_length)%Q) (updates st).
Proof.
  intros HL Hh st.
  assert (J : Sorted Qle (map call_time (updates st))
              /\ Forall (fun u => (0 <= call_time u <= t st)%Q) (updates st)
              /\ (0 <= t st <= sim_length)%Q).
  { subst st. apply run_invariant with
      (P := fun st => Sorted Qle (map call_time (updates st))
                      /\ Forall (fun u => (0 <= call_time u <= t st)%Q) (updates st)
                      /\ (0 <= t st <= sim_length)%Q).
    - intros st I _. apply (times_invariant_body m sim_length st Hh I).
    - cbn. repeat split; try constructor; lra. }
  destruct J as (So & Fo & Ht). split; [exact So|].
  eapply Forall_impl; [|exact Fo]. cbn beta. intros u Hu. lra.
Qed.

(** ** A patient that starts in an absorbing state *)

(** X5: if the state of the patient's monitor is absorbing for its matrix,
    [simulate] leaves the loop in its first turn without calling [update]:
    the patient comes back exactly as it was (also its [survivalTime], set or
    not), for every horizon and without exception. *)
Theorem simulate_in_absorbing_state_changes_nothing
  (p : Patient) (sim_length : Q) (fuel : nat) :
  absorbing (transRateMatrix p) (value (currentState (stateMonitor p))) ->
  (1 <= fuel)%nat ->
  simulate fuel p sim_length = Some (p, None)
  /\ updates (run (transRateMatrix p) sim_length fuel (sim_start p)) = [].
Proof.
  intros A Hf.
  assert (H1 : halted (run (transRateMatrix p) sim_length 1 (sim_start p)) = true
               /\ monitor (run (transRateMatrix p) sim_length 1 (sim_start p))
                  = stateMonitor p
               /\ raised (run (transRateMatrix p) sim_length 1 (sim_start p)) = None
               /\ updates (run (transRateMatrix p) sim_length 1 (sim_start p)) = []).
  { change (run (transRateMatrix p) sim_length 1 (sim_start p))
      with (loop_body (transRateMatrix p) sim_length (sim_start p)).
    destruct (loop_body_cases (transRateMatrix p) sim_length (sim_start p))
      as [j r' E|dt j r' E G|dt j r' s E G C|dt j r' E G C];
      cbn [sim_start monitor rng] in E;
      try (exfalso; exact (absorbing_no_draw _ _ _ _ _ _ A E)).
    repeat split. }
  destruct H1 as (Hh & Hm & Hr & Hu). split.
  - rewrite (halted_simulate p sim_length 1 fuel Hh Hf), Hm, Hr.
    destruct p; reflexivity.
  - rewrite (run_halted_le _ _ fuel 1 _ Hh Hf). exact Hu.
Qed.

(** ** Why the loop stops *)

(** X14: whenever [if_stop] is set, either the horizon stopped the run (then
    [t] is [sim_length] and the trajectory ends with the one call made for
    the horizon, whose state is the current state), or the sampler returned no
    holding time for the current state (then every call of the trajectory is
    a sampled transition). *)
Theorem if_stop_has_a_reason
  (m : RateMatrix) (sim_length : Q) (p : Patient) (n : nat) :
  let st := run m sim_length n (sim_start p) in
  if_stop st = true -> stop_reason m sim_length st.
Proof.
  cbv zeta.
  assert (J : shape_invariant (currentState (stateMonitor p)) sim_length
                (run m sim_length n (sim_start p))
              /\ (if_stop (run m sim_length n (sim_start p)) = true ->
                  stop_reason m sim_length (run m sim_length n (sim_start p)))).
  { apply run_invariant with
      (P := fun st => shape_invariant (currentState (stateMonitor p)) sim_length st
                      /\ (if_stop st = true -> stop_reason m sim_length st)).
    - intros st [Sh _] H. split; [apply shape_invariant_body; assumption|].
      pose proof (running_shape _ _ _ (proj1 Sh) H) as F.
      assert (Hs : if_stop st = false).
      { unfold halted in H. apply orb_false_elim in H. tauto. }
      destruct (loop_body_cases m sim_length st)
        as [j r' E|dt j r' E G|dt j r' s E G C|dt j r' E G C];
        unfold stop_reason; cbn [if_stop t updates monitor]; intro K.
      + right. split; [exact F|]. exists (rng st). rewrite E. reflexivity.
      + left. split; [reflexivity|]. eexists. eexists.
        split; [reflexivity|]. split; [reflexivity|].
        cbn [call_state]. rewrite currentState_update. reflexivity.
      + congruence.
      + congruence.
    - split.
      + split; [apply shape_sampled; constructor|].
        split; [reflexivity|constructor].
      + cbn. discriminate. }
  exact (proj2 J).
Qed.

End Trajectory.

Section Aggregation.

Context {HS : HealthStatesEnum} {GS : GillespieSampler}.

(** ** What [extract_outcome] accumulates *)

Lemma length_survival_entry (p : Patient) : (length (survival_entry p) <= 1)%nat.
Proof. unfold survival_entry. destruct (survivalTime (stateMonitor p)); cbn; lia. Qed.

Lemma length_flat_map_le {A B : Type} (f : A -> list B) (l : list A) :
  (forall a, (length (f a) <= 1)%nat) ->
  (length (flat_map f l) <= length l)%nat.
Proof.
  intro H. induction l as [|a l IH]; [cbn; lia|].
  cbn [flat_map length]. rewrite length_app. specialize (H a). lia.
Qed.

Lemma fold_extract_outcome (ps : list Patient) :
  forall co,
    nTotalStrokes (fold_left extract_outcome ps co)
    = nTotalStrokes co ++ map (fun p => nStrokes (stateMonitor p)) ps
    /\ survivalTimes (fold_left extract_outcome ps co)
       = survivalTimes co ++ flat_map survival_entry ps.
Proof.
  induction ps as [|p ps IH]; intro co; cbn [fold_left map flat_map].
  - rewrite !app_nil_r. split; reflexivity.
  - destruct (IH (extract_outcome co p)) as [H1 H2]. rewrite H1, H2.
    cbn [extract_outcome nTotalStrokes survivalTimes]. unfold survival_entry.
    split; [rewrite <- app_assoc; reflexivity|].
    destruct (survivalTime (stateMonitor p)); rewrite <- ?app_assoc; reflexivity.
Qed.

Lemma fold_extract_outcome_lengths (ps : list Patient) :
  (length (survivalTimes (fold_left extract_outcome ps CohortOutcomes_init))
   <= length (nTotalStrokes (fold_left extract_outcome ps CohortOutcomes_init)))%nat
  /\ length (nTotalStrokes (fold_left extract_outcome ps CohortOutcomes_init))
     = length ps.
Proof.
  destruct (fold_extract_outcome ps CohortOutcomes_init) as [K1 K2]. rewrite K1, K2.
  cbn [CohortOutcomes_init nTotalStrokes survivalTimes app].
  rewrite length_map. split; [|reflexivity].
  apply length_flat_map_le, length_survival_entry.
Qed.

(** X6: extracting the patients [ps] in turn appends one stroke count per
    patient, in order, and the survival time of each patient that has one.
    Starting from a new [CohortOutcomes], [nTotalStrokes] has one entry per
    patient and [survivalTimes] never has more entries than
    [nTotalStrokes]. *)
Theorem extract_outcome_accumulates (ps : list Patient) (co : CohortOutcomes) :
  let co' := fold_left extract_outcome ps co in
  nTotalStrokes co' = nTotalStrokes co ++ map (fun p => nStrokes (stateMonitor p)) ps
  /\ survivalTimes co' = survivalTimes co ++ flat_map survival_entry ps
  /\ (length (survivalTimes (fold_left extract_outcome ps CohortOutcomes_init))
      <= length (nTotalStrokes (fold_left extract_outcome ps CohortOutcomes_init)))%nat
  /\ length (nTotalStrokes (fold_left extract_outcome ps CohortOutcomes_init))
     = length ps.
Proof.
  intro co'. destruct (fold_extract_outcome ps co) as [H1 H2].
  split; [exact H1|]. split; [exact H2|]. apply fold_extract_outcome_lengths.
Qed.

(** ** [calculate_cohort_outcomes]: success, partial failure, repetition *)

Lemma true_div_Some (a : Q) (n : Z) (q : Q) :
  true_div a n = Some q -> n <> 0 /\ q = (a / inject_Z n)%Q.
Proof.
  unfold true_div. destruct (n =? 0) eqn:E; [discriminate|].
  intro H. inversion H. split; [apply Z.eqb_neq, E | reflexivity].
Qed.

Lemma len_zero {A : Type} (l : list A) : len l = 0 <-> l = [].
Proof.
  unfold len. destruct l; cbn [length]; split; intro H;
    try reflexivity; try discriminate; lia.
Qed.

Lemma calculate_success (co co' : CohortOutcomes) (n : Z) :
  calculate_cohort_outcomes co n = (co', None) ->
  survivalTimes co <> [] /\ nTotalStrokes co <> []
  /\ co' = {| survivalTimes := survivalTimes co;
              nTotalStrokes := nTotalStrokes co;
              nLivingPatients :=
                Some {| name := "# of living patients";
                        initial_size := n;
                        times_of_changes := survivalTimes co;
                        increments := repeat (-1) (length (survivalTimes co)) |};
              meanSurvivalTime :=
                Some (sumQ (survivalTimes co) / inject_Z (len (survivalTimes co)))%Q;
              meanNumOfStrokes :=
                Some (inject_Z (sumZ (nTotalStrokes co))
                      / inject_Z (len (nTotalStrokes co)))%Q |}.
Proof.
  unfold calculate_cohort_outcomes.
  destruct (true_div (sumQ (survivalTimes co)) (len (survivalTimes co)))
    as [q1|] eqn:E1; [|discriminate].
  cbn [nTotalStrokes survivalTimes meanSurvivalTime].
  destruct (true_div (inject_Z (sumZ (nTotalStrokes co))) (len (nTotalStrokes co)))
    as [q2|] eqn:E2; [|discriminate].
  apply true_div_Some in E1, E2. destruct E1 as [N1 ->], E2 as [N2 ->].
  intro H. inversion H. repeat split.
  - intro K. apply N1, len_zero, K.
  - intro K. apply N2, len_zero, K.
Qed.

(** X7: on an object whose [survivalTimes] is not empty but whose
    [nTotalStrokes] is empty, [calculate_cohort_outcomes] raises
    [ZeroDivisionError] after its first assignment: [meanSurvivalTime] is
    set, [meanNumOfStrokes] and [nLivingPatients] are as before. *)
Theorem calculate_fails_after_first_assignment
  (co : CohortOutcomes) (initial_pop_size : Z) :
  survivalTimes co <> [] ->
  nTotalStrokes co = [] ->
  calculate_cohort_outcomes co initial_pop_size
  = ({| survivalTimes := survivalTimes co;
        nTotalStrokes := [];
        nLivingPatients := nLivingPatients co;
        meanSurvivalTime :=
          Some (sumQ (survivalTimes co) / inject_Z (len (survivalTimes co)))%Q;
        meanNumOfStrokes := meanNumOfStrokes co |}, Some ZeroDivisionError).
Proof.
  intros H1 H2. unfold calculate_cohort_outcomes, true_div.
  rewrite (len_nonempty _ H1). cbn [nTotalStrokes]. rewrite H2. reflexivity.
Qed.

(** X8: on the outcomes extracted from any patients into a new
    [CohortOutcomes], [calculate_cohort_outcomes] is all or nothing: it
    completes, with both means and the curve set, exactly when some patient
    has a survival time; otherwise it raises [ZeroDivisionError] and the
    object is as before.  The failure after the first assignment cannot
    happen there. *)
Theorem calculate_all_or_nothing_on_extracted_outcomes
  (ps : list Patient) (initial_pop_size : Z) :
  let co := fold_left extract_outcome ps CohortOutcomes_init in
  let r := calculate_cohort_outcomes co initial_pop_size in
  (survivalTimes co = [] /\ r = (co, Some ZeroDivisionError))
  \/ (survivalTimes co <> [] /\ snd r = None
      /\ meanSurvivalTime (fst r)
         = Some (sumQ (survivalTimes co) / inject_Z (len (survivalTimes co)))%Q
      /\ meanNumOfStrokes (fst r)
         = Some (inject_Z (sumZ (nTotalStrokes co)) / inject_Z (len ps))%Q
      /\ exists path, nLivingPatients (fst r) = Some path).
Proof.
  intros co r.
  destruct (fold_extract_outcome_lengths ps) as (Hle & Hlen).
  fold co in Hle, Hlen.
  destruct (survivalTimes co) as [|x l] eqn:Es.
  - left. split; [reflexivity|]. apply calculate_empty, Es.
  - right. split; [discriminate|].
    assert (Hn : (len (nTotalStrokes co) =? 0) = false).
    { apply Z.eqb_neq. unfold len. cbn [length] in Hle. lia. }
    subst r. unfold calculate_cohort_outcomes, true_div.
    rewrite Es. rewrite (len_nonempty (x :: l)) by discriminate.
    cbn [nTotalStrokes]. rewrite Hn. cbn [fst snd meanSurvivalTime meanNumOfStrokes
                                          nLivingPatients].
    unfold len at 3. rewrite Hlen. repeat split. eexists. reflexivity.
Qed.

(** X9: calling [calculate_cohort_outcomes] again on the object it returned
    returns the same object and the same exception, whatever the object: a
    completed call, a failure before any assignment and a failure after the
    first one are all repeated unchanged. *)
Theorem calculate_cohort_outcomes_idempotent (co : CohortOutcomes) (n : Z) :
  calculate_cohort_outcomes (fst (calculate_cohort_outcomes co n)) n
  = calculate_cohort_outcomes co n.
Proof.
  unfold calculate_cohort_outcomes.
  destruct (true_div (sumQ (survivalTimes co)) (len (survivalTimes co)))
    as [q1|] eqn:E1; cbn [fst nTotalStrokes survivalTimes meanSurvivalTime].
  - destruct (true_div (inject_Z (sumZ (nTotalStrokes co))) (len (nTotalStrokes co)))
      as [q2|] eqn:E2; cbn [fst nTotalStrokes survivalTimes meanSurvivalTime];
      rewrite E1; cbn [nTotalStrokes survivalTimes meanSurvivalTime];
      rewrite E2; reflexivity.
  - rewrite E1. reflexivity.
Qed.

(** ** The cohort loop *)

Lemma In_range (n i : Z) : In i (range n) <-> 0 <= i < n.
Proof.
  unfold range. rewrite in_map_iff. split.
  - intros (k & <- & Hk). apply in_seq in Hk. lia.
  - intro H. exists (Z.to_nat i). split; [lia|]. apply in_seq. lia.
Qed.

Lemma NoDup_map_injective {A B : Type} (f : A -> B) (l : list A) :
  (forall x y, In x l -> In y l -> f x = f y -> x = y) ->
  NoDup l -> NoDup (map f l).
Proof.
  intros Hf N. induction N as [|a l Ha N IH]; cbn [map]; constructor.
  - intro K. apply in_map_iff in K. destruct K as (b & E & Hb).
    apply Ha. rewrite (Hf a b); [exact Hb|left; reflexivity|right; exact Hb|].
    symmetry. exact E.
  - apply IH. intros x y Hx Hy. apply Hf; right; assumption.
Qed.

Lemma NoDup_range (n : Z) : NoDup (range n).
Proof.
  unfold range. apply NoDup_map_injective; [|apply seq_NoDup].
  intros x y _ _. apply Nat2Z.inj.
Qed.

Lemma simulate_patients_keeps_summaries (fuel : nat) (c : Cohort) (L : Q) (idxs : list Z) :
  forall co co' e,
    simulate_patients fuel c L idxs co = Some (co', e) ->
    meanSurvivalTime co' = meanSurvivalTime co
    /\ meanNumOfStrokes co' = meanNumOfStrokes co
    /\ nLivingPatients co' = nLivingPatients co.
Proof.
  induction idxs as [|i idxs IH]; intros co co' e H; cbn [simulate_patients] in H.
  - inversion H; subst. auto.
  - destruct (simulate fuel _ L) as [[p' [e'|]]|]; try discriminate H.
    + inversion H; subst. auto.
    + apply IH in H. exact H.
Qed.

Lemma simulate_patients_progress (fuel : nat) (c : Cohort) (L : Q) (idxs : list Z) :
  forall co co' e,
    simulate_patients fuel c L idxs co = Some (co', e) ->
    exists k,
      length (nTotalStrokes co') = (length (nTotalStrokes co) + k)%nat
      /\ match e with
         | None => k = length idxs
         | Some _ => (k < length idxs)%nat
         end.
Proof.
  induction idxs as [|i idxs IH]; intros co co' e H; cbn [simulate_patients] in H.
  - inversion H; subst. exists O. split; [lia|reflexivity].
  - destruct (simulate fuel _ L) as [[p' [e'|]]|]; try discriminate H.
    + inversion H; subst. exists O. cbn [length]. split; lia.
    + apply IH in H. destruct H as (k & Hk & He). exists (S k).
      cbn [extract_outcome nTotalStrokes] in Hk. rewrite length_app in Hk.
      cbn [length] in *. split; [lia|]. destruct e; lia.
Qed.

Lemma length_survival_of (o : option (Patient * option exn)) :
  (length (survival_of o) <= 1)%nat.
Proof.
  destruct o as [[p e]|]; cbn [survival_of]; [|cbn; lia].
  destruct (survivalTime (stateMonitor p)); cbn; lia.
Qed.

(** X10: when [Cohort.simulate] on a newly created cohort completes without
    exception, the population size is positive, one stroke count was recorded
    per patient, at least one and at most [popSize] survival times were
    recorded, both means are set ([meanNumOfStrokes] is the sum of the counts
    divided by [popSize]), the curve object holds [popSize] as initial size,
    the survival times and one -1 per survival time, and the cohort's id,
    size and matrix are as created. *)
Theorem Cohort_simulate_completed
  (fuel : nat) (id pop_size : Z) (m : RateMatrix) (sim_length : Q) (c' : Cohort) :
  Cohort_simulate fuel (Cohort_init id pop_size m) sim_length = Some (c', None) ->
  let co := cohortOutcomes c' in
  0 < pop_size
  /\ c' = set_cohortOutcomes (Cohort_init id pop_size m) co
  /\ len (nTotalStrokes co) = pop_size
  /\ 0 < len (survivalTimes co) <= pop_size
  /\ meanSurvivalTime co
     = Some (sumQ (survivalTimes co) / inject_Z (len (survivalTimes co)))%Q
  /\ meanNumOfStrokes co
     = Some (inject_Z (sumZ (nTotalStrokes co)) / inject_Z pop_size)%Q
  /\ nLivingPatients co
     = Some {| name := "# of living patients";
               initial_size := pop_size;
               times_of_changes := survivalTimes co;
               increments := repeat (-1) (length (survivalTimes co)) |}.
Proof.
  unfold Cohort_simulate. cbn [popSize Cohort_init cohortOutcomes].
  destruct (simulate_patients fuel (Cohort_init id pop_size m) sim_length
              (range pop_size) CohortOutcomes_init) as [[co0 [e|]]|] eqn:E;
    try discriminate.
  destruct (calculate_cohort_outcomes co0 pop_size) as [co1 r] eqn:K.
  intro H. inversion H; subst c' r; clear H.
  cbn [cohortOutcomes set_cohortOutcomes]. cbv zeta.
  destruct (calculate_success _ _ _ K) as (Ns & Nt & ->).
  cbn [nTotalStrokes survivalTimes meanSurvivalTime meanNumOfStrokes nLivingPatients].
  destruct (simulate_patients_outcomes _ _ _ _ _ _ E) as [H1 H2].
  cbn [CohortOutcomes_init nTotalStrokes survivalTimes app] in H1, H2.
  assert (Lt : length (nTotalStrokes co0) = Z.to_nat pop_size).
  { rewrite H1, length_map. apply length_range. }
  assert (Ls : (length (survivalTimes co0) <= Z.to_nat pop_size)%nat).
  { rewrite H2, <- (length_range pop_size).
    apply length_flat_map_le. intro a. apply length_survival_of. }
  assert (Ps : (0 < length (survivalTimes co0))%nat).
  { destruct (survivalTimes co0); [congruence|cbn; lia]. }
  assert (Pp : 0 < pop_size) by lia.
  assert (Lp : len (nTotalStrokes co0) = pop_size) by (unfold len; lia).
  split; [exact Pp|]. split; [reflexivity|]. split; [exact Lp|].
  split; [unfold len; lia|]. split; [reflexivity|].
  split; [rewrite Lp; reflexivity|reflexivity].
Qed.

(** ** The ids of a cohort's patients *)

(** X11: the patients of a cohort get pairwise different ids, namely
    [id * popSize + i] for [i] from 0 to [popSize - 1] in the order of the
    loop; two cohorts of the same size with different ids share no patient id;
    and the stroke counts recorded by the loop are those of the patients of
    these ids, each simulated alone. *)
Theorem patient_ids_distinct (c : Cohort) :
  NoDup (patient_ids c)
  /\ (forall c', popSize c' = popSize c -> Cohort_id c' <> Cohort_id c ->
       forall x, In x (patient_ids c) -> ~ In x (patient_ids c'))
  /\ (forall fuel sim_length co co',
       simulate_patients fuel c sim_length (range (popSize c)) co = Some (co', None) ->
       nTotalStrokes co'
       = nTotalStrokes co
           ++ map (fun i => strokes_of
                     (simulate fuel (Patient_init i (Cohort_transRateMatrix c))
                        sim_length))
                  (patient_ids c)).
Proof.
  split; [|split].
  - unfold patient_ids. apply NoDup_map_injective; [|apply NoDup_range].
    intros x y _ _ H. lia.
  - intros c' Hp Hc x Hx Hx'. unfold patient_ids in Hx, Hx'.
    apply in_map_iff in Hx, Hx'.
    destruct Hx as (i & Ei & Hi), Hx' as (j & Ej & Hj).
    apply In_range in Hi, Hj. rewrite Hp in *. apply Hc.
    assert (E : Cohort_id c' * popSize c + j = Cohort_id c * popSize c + i) by lia.
    clear Ei Ej. nia.
  - intros fuel L co co' H.
    destruct (simulate_patients_outcomes _ _ _ _ _ _ H) as [H1 _].
    rewrite H1. unfold patient_ids. rewrite map_map. reflexivity.
Qed.

(** ** What the exception of [Cohort.simulate] tells *)

(** X12: [Cohort.simulate] raises nothing but [ValueError] and
    [ZeroDivisionError].  A [ValueError] comes from a patient's run: fewer
    than [popSize] stroke counts were added, the aggregation was not
    attempted, and the two means and the curve are as before the call.  A
    [ZeroDivisionError] comes from the aggregation: all [popSize] patients
    were simulated and recorded, and no curve was built. *)
Theorem Cohort_simulate_exception
  (fuel : nat) (c c' : Cohort) (sim_length : Q) (e : exn) :
  Cohort_simulate fuel c sim_length = Some (c', Some e) ->
  let co := cohortOutcomes c in
  let co' := cohortOutcomes c' in
  (e = ValueError
   /\ (length (nTotalStrokes co')
       < length (nTotalStrokes co) + Z.to_nat (popSize c))%nat
   /\ meanSurvivalTime co' = meanSurvivalTime co
   /\ meanNumOfStrokes co' = meanNumOfStrokes co
   /\ nLivingPatients co' = nLivingPatients co)
  \/ (e = ZeroDivisionError
      /\ length (nTotalStrokes co')
         = (length (nTotalStrokes co) + Z.to_nat (popSize c))%nat
      /\ meanNumOfStrokes co' = meanNumOfStrokes co
      /\ nLivingPatients co' = nLivingPatients co).
Proof.
  unfold Cohort_simulate.
  destruct (simulate_patients fuel c sim_length (range (popSize c)) (cohortOutcomes c))
    as [[co0 [e0|]]|] eqn:E; try discriminate.
  - intro H. inversion H; subst c' e0; clear H. cbn [cohortOutcomes set_cohortOutcomes].
    cbv zeta. left.
    destruct (simulate_patients_exn _ _ _ _ _ _ _ E) as [N1 N2].
    destruct (simulate_patients_progress _ _ _ _ _ _ _ E) as (k & Hk & Hlt).
    destruct (simulate_patients_keeps_summaries _ _ _ _ _ _ _ E) as (S1 & S2 & S3).
    rewrite length_range in Hlt.
    split; [destruct e; congruence|]. split; [lia|]. auto.
  - destruct (calculate_cohort_outcomes co0 (popSize c)) as [co1 r] eqn:K.
    intro H. inversion H; subst c' r; clear H. cbn [cohortOutcomes set_cohortOutcomes].
    cbv zeta. right.
    destruct (simulate_patients_progress _ _ _ _ _ _ _ E) as (k & Hk & Hlt).
    destruct (simulate_patients_keeps_summaries _ _ _ _ _ _ _ E) as (S1 & S2 & S3).
    rewrite length_range in Hlt. subst k.
    split; [exact (calculate_exn _ _ _ _ K)|].
    revert K. unfold calculate_cohort_outcomes.
    destruct (true_div (sumQ (survivalTimes co0)) (len (survivalTimes co0))).
    + cbn [nTotalStrokes survivalTimes meanSurvivalTime].
      destruct (true_div (inject_Z (sumZ (nTotalStrokes co0))) (len (nTotalStrokes co0)));
        intro K; inversion K; subst co1.
      cbn [nTotalStrokes meanNumOfStrokes nLivingPatients]. auto.
    + intro K; inversion K; subst co1. auto.
Qed.

(** ** The range of the recorded outcomes *)

Lemma last_death_time_bound (L : Q) (l : list UpdateCall) :
  Forall (fun u => (call_time u <= L)%Q) l ->
  forall d, (forall x, d = Some x -> (x <= L)%Q) ->
  forall x, last_death_time d l = Some x -> (x <= L)%Q.
Proof.
  unfold last_death_time. induction 1 as [|u l Hu F IH]; intros d Hd x; cbn [fold_left].
  - apply Hd.
  - apply IH. destruct (is_death (call_state u)); [|exact Hd].
    intros y E. inversion E; subst. exact Hu.
Qed.

Lemma survival_of_within_horizon (fuel : nat) (id : Z) (m : RateMatrix) (L : Q) :
  Forall (fun x => (x <= L)%Q) (survival_of (simulate fuel (Patient_init id m) L)).
Proof.
  unfold simulate. cbn [transRateMatrix Patient_init Patient_id].
  set (st := run m L fuel (sim_start (Patient_init id m))).
  destruct (halted st); [|constructor]. cbn [survival_of stateMonitor].
  destruct (survivalTime (monitor st)) as [x|] eqn:E; [|constructor].
  constructor; [|constructor].
  pose proof (monitor_is_replay m L (Patient_init id m) fuel) as R. fold st in R.
  rewrite R in E.
  destruct (replay_fields (stateMonitor (Patient_init id m)) (updates st)) as (_ & Hs & _).
  rewrite Hs in E.
  destruct (shape_invariant_run m L (Patient_init id m) fuel) as (_ & _ & Tm).
  fold st in Tm.
  eapply last_death_time_bound; [exact Tm| |exact E].
  cbn. intros y Hy. discriminate Hy.
Qed.

Lemma count_stroke_calls_nonneg (l : list UpdateCall) : 0 <= count_stroke_calls l.
Proof. unfold count_stroke_calls, len. lia. Qed.

Lemma strokes_of_nonneg (fuel : nat) (id : Z) (m : RateMatrix) (L : Q) :
  0 <= strokes_of (simulate fuel (Patient_init id m) L).
Proof.
  unfold simulate. cbn [transRateMatrix Patient_init Patient_id].
  set (st := run m L fuel (sim_start (Patient_init id m))).
  destruct (halted st); [|cbn; lia]. cbn [strokes_of stateMonitor].
  pose proof (nStrokes_counts_every_call m L (Patient_init id m) fuel) as K.
  cbv zeta in K. fold st in K. rewrite K. cbn [stateMonitor Patient_init
    PatientStateMonitor_init nStrokes].
  pose proof (count_stroke_calls_nonneg (updates st)). lia.
Qed.

Lemma simulate_patients_in_range (fuel : nat) (c : Cohort) (L : Q) (idxs : list Z) :
  forall co co' e,
    Forall (fun x => (x <= L)%Q) (survivalTimes co) ->
    Forall (fun k => 0 <= k) (nTotalStrokes co) ->
    simulate_patients fuel c L idxs co = Some (co', e) ->
    Forall (fun x => (x <= L)%Q) (survivalTimes co')
    /\ Forall (fun k => 0 <= k) (nTotalStrokes co').
Proof.
  induction idxs as [|i idxs IH]; intros co co' e Fs Ft H;
    cbn [simulate_patients] in H.
  - inversion H; subst. split; assumption.
  - pose proof (survival_of_within_horizon fuel (Cohort_id c * popSize c + i)
                  (Cohort_transRateMatrix c) L) as Ws.
    pose proof (strokes_of_nonneg fuel (Cohort_id c * popSize c + i)
                  (Cohort_transRateMatrix c) L) as Wt.
    destruct (simulate fuel _ L) as [[p' [e'|]]|]; try discriminate H.
    + inversion H; subst. split; assumption.
    + cbn [survival_of strokes_of] in Ws, Wt.
      apply (IH _ _ _) in H; [exact H| |].
      * cbn [extract_outcome survivalTimes].
        destruct (survivalTime (stateMonitor p')); [|exact Fs].
        apply Forall_app. split; assumption.
      * cbn [extract_outcome nTotalStrokes].
        apply Forall_app. split; [exact Ft|]. constructor; [exact Wt|constructor].
Qed.

Lemma calculate_keeps_sequences (co : CohortOutcomes) (n : Z) :
  survivalTimes (fst (calculate_cohort_outcomes co n)) = survivalTimes co
  /\ nTotalStrokes (fst (calculate_cohort_outcomes co n)) = nTotalStrokes co.
Proof.
  unfold calculate_cohort_outcomes.
  destruct (true_div (sumQ (survivalTimes co)) (len (survivalTimes co)));
    [|split; reflexivity].
  cbn [nTotalStrokes survivalTimes].
  destruct (true_div (inject_Z (sumZ (nTotalStrokes co))) (len (nTotalStrokes co)));
    split; reflexivity.
Qed.

(** X13: whenever [Cohort.simulate] on a newly created cohort returns, with
    or without exception, every survival time it recorded is at most
    [sim_length] and every stroke count it recorded is at least 0.  This
    holds for every matrix, sampler and horizon; it rests on the horizon test
    each recorded time has passed, not on how sums or means are computed. *)
Theorem recorded_outcomes_in_range
  (fuel : nat) (id pop_size : Z) (m : RateMatrix) (sim_length : Q)
  (c' : Cohort) (e : option exn) :
  Cohort_simulate fuel (Cohort_init id pop_size m) sim_length = Some (c', e) ->
  Forall (fun x => (x <= sim_length)%Q) (survivalTimes (cohortOutcomes c'))
  /\ Forall (fun k => 0 <= k) (nTotalStrokes (cohortOutcomes c')).
Proof.
  unfold Cohort_simulate. cbn [popSize Cohort_init cohortOutcomes].
  destruct (simulate_patients fuel (Cohort_init id pop_size m) sim_length
              (range pop_size) CohortOutcomes_init) as [[co0 e0]|] eqn:E;
    [|discriminate].
  apply simulate_patients_in_range in E; [|constructor|constructor].
  destruct e0 as [e0|].
  - intro H. inversion H; subst. exact E.
  - pose proof (calculate_keeps_sequences co0 pop_size) as [K1 K2].
    destruct (calculate_cohort_outcomes co0 pop_size) as [co1 r].
    cbn [fst] in K1, K2. intro H. inversion H; subst.
    cbn [cohortOutcomes set_cohortOutcomes]. rewrite K1, K2. exact E.
Qed.

End Aggregation.

(** * The further properties on concrete runs *)

Lemma relapsing_holding_times_nonnegative :
  holding_times_at_least (GS := relapsing_sampler) 0.
Proof.
  intros m i r dt j r' E.
  apply Qle_trans with 1%Q; [discriminate|].
  exact (relapsing_holding_times m i r dt j r' E).
Qed.

Lemma call_times_nondecreasing_within_horizon_witness :
  let st := run (GS := relapsing_sampler) relapsing_matrix (7 # 2) 6
              (sim_start (Patient_init (HS := HS4) 0 relapsing_matrix)) in
  map call_time (updates st) = [1; 0 + 1 + 1; 0 + 1 + 1 + 1; 7 # 2]%Q
  /\ Sorted Qle (map call_time (updates st))
  /\ Forall (fun u => (0 <= call_time u <= 7 # 2)%Q) (updates st).
Proof.
  intro st. split; [reflexivity|].
  apply (@call_times_nondecreasing_within_horizon HS4 relapsing_sampler
           relapsing_matrix (7 # 2) (Patient_init 0 relapsing_matrix) 6).
  - discriminate.
  - exact relapsing_holding_times_nonnegative.
Defined.

Lemma simulate_in_absorbing_state_changes_nothing_witness :
  simulate (GS := stroke_sampler) 3 dead_patient 10 = Some (dead_patient, None)
  /\ updates (run (GS := stroke_sampler) stroke_matrix 10 3 (sim_start dead_patient))
     = [].
Proof.
  apply (@simulate_in_absorbing_state_changes_nothing HS4 stroke_sampler
           dead_patient 10 3).
  - exact (proj1 stroke_matrix_deaths_absorb).
  - lia.
Defined.

Lemma calculate_fails_after_first_assignment_witness :
  calculate_cohort_outcomes
    {| survivalTimes := [3; 1]%Q; nTotalStrokes := [];
       nLivingPatients := None; meanSurvivalTime := None;
       meanNumOfStrokes := None |} 2
  = ({| survivalTimes := [3; 1]%Q; nTotalStrokes := [];
        nLivingPatients := None;
        meanSurvivalTime := Some (sumQ [3; 1] / inject_Z 2)%Q;
        meanNumOfStrokes := None |}, Some ZeroDivisionError).
Proof.
  apply (calculate_fails_after_first_assignment
           {| survivalTimes := [3; 1]%Q; nTotalStrokes := [];
              nLivingPatients := None; meanSurvivalTime := None;
              meanNumOfStrokes := None |} 2).
  - discriminate.
  - reflexivity.
Defined.

Lemma stroke_cohort_completes :
  Cohort_simulate (GS := stroke_sampler) 5 (Cohort_init 0 2 stroke_matrix) 10
  = Some (stroke_cohort_done, None).
Proof. reflexivity. Qed.

Lemma Cohort_simulate_completed_witness :
  let co := cohortOutcomes stroke_cohort_done in
  len (nTotalStrokes co) = 2
  /\ 0 < len (survivalTimes co) <= 2
  /\ meanNumOfStrokes co = Some (inject_Z (sumZ (nTotalStrokes co)) / inject_Z 2)%Q.
Proof.
  intro co.
  destruct (@Cohort_simulate_completed HS4 stroke_sampler 5 0 2 stroke_matrix 10
              stroke_cohort_done stroke_cohort_completes)
    as (_ & _ & H1 & H2 & _ & H3 & _).
  split; [exact H1|]. split; [exact H2|exact H3].
Defined.

Lemma patient_ids_distinct_witness :
  patient_ids (Cohort_init 3 2 stroke_matrix) = [6; 7]
  /\ NoDup (patient_ids (Cohort_init 3 2 stroke_matrix))
  /\ ~ In 6 (patient_ids (Cohort_init 0 2 stroke_matrix)).
Proof.
  split; [reflexivity|].
  destruct (@patient_ids_distinct HS4 stroke_sampler (Cohort_init 3 2 stroke_matrix))
    as (N & D & _).
  split; [exact N|].
  apply (D (Cohort_init 0 2 stroke_matrix)).
  - reflexivity.
  - discriminate.
  - left. reflexivity.
Defined.

Lemma stray_cohort_raises :
  Cohort_simulate (GS := stray_sampler) 5 (Cohort_init 0 2 relapsing_matrix) 10
  = Some (Cohort_init 0 2 relapsing_matrix, Some ValueError).
Proof. reflexivity. Qed.

Lemma Cohort_simulate_exception_witness :
  let co := cohortOutcomes (Cohort_init 0 2 relapsing_matrix) in
  (ValueError = ValueError
   /\ (length (nTotalStrokes co) < length (nTotalStrokes co) + Z.to_nat 2)%nat
   /\ meanSurvivalTime co = meanSurvivalTime co
   /\ meanNumOfStrokes co = meanNumOfStrokes co
   /\ nLivingPatients co = nLivingPatients co)
  \/ (ValueError = ZeroDivisionError
      /\ length (nTotalStrokes co)
         = (length (nTotalStrokes co) + Z.to_nat 2)%nat
      /\ meanNumOfStrokes co = meanNumOfStrokes co
      /\ nLivingPatients co = nLivingPatients co).
Proof.
  exact (@Cohort_simulate_exception HS4 stray_sampler 5
           (Cohort_init 0 2 relapsing_matrix) (Cohort_init 0 2 relapsing_matrix)
           10 ValueError stray_cohort_raises).
Defined.

Lemma recorded_outcomes_in_range_witness :
  Forall (fun x => (x <= 10)%Q) (survivalTimes (cohortOutcomes stroke_cohort_done))
  /\ Forall (fun k => 0 <= k) (nTotalStrokes (cohortOutcomes stroke_cohort_done)).
Proof.
  exact (@recorded_outcomes_in_range HS4 stroke_sampler 5 0 2 stroke_matrix 10
           stroke_cohort_done None stroke_cohort_completes).
Defined.

Lemma if_stop_has_a_reason_witness :
  stop_reason (GS := relapsing_sampler) relapsing_matrix (3 # 2)
    (run (GS := relapsing_sampler) relapsing_matrix (3 # 2) 2
       (sim_start (Patient_init (HS := HS4) 0 relapsing_matrix))).
Proof.
  apply (@if_stop_has_a_reason HS4 relapsing_sampler relapsing_matrix (3 # 2)
           (Patient_init 0 relapsing_matrix) 2).
  reflexivity.
Defined.
